(** * Conditional test execution rules (sqlalchemy/testing/exclusions.py)

    A shallow embedding of the predicate and rule engine of
    [lib/sqlalchemy/testing/exclusions.py]: predicates over an optional
    environment configuration, [compound] rules made of skip predicates,
    fail predicates and tags, the enforcement wrapper [_do] with its two
    reconciliation steps, and the declarative builders.

    Conventions of the embedding.
    - A Python call that may raise returns a [PyResult]; the exception is a
      value of [PyExc].
    - Predicate objects are hashed by identity in the source (no [__eq__] or
      [__hash__] is defined), so a set of predicates is a [gset] of object
      identifiers together with an object table [PredId -> Predicate].
    - The iteration order of a Python set is not specified; the functions
      that loop over a set take the order as a parameter [set_iter].
    - The interpreter's [%] operator on a description and a mapping, the
      regular expression matcher of [re] and the helpers of the sibling
      modules [config] and [util] are not code of this file of the source;
      they are parameters, or modelled where that is said. *)

From Stdlib Require Import Ascii String.
From stdpp Require Import gmap strings list pretty functions.

Set Warnings "-register-all".
Open Scope string_scope.

(** ** Results and exceptions *)

(** An exception object: its class name, whether the class derives from
    [Exception] (what [except Exception] catches), its [str()] and the
    traceback it carries. *)
Record PyExc := mkExc {
  exc_class : string;
  exc_is_Exception : bool;
  exc_str : string;
  exc_traceback : list string
}.

Inductive PyResult (A : Type) : Type :=
| Return (a : A)
| Raise (e : PyExc).
Arguments Return {A} a.
Arguments Raise {A} e.

#[export] Instance PyResult_ret : MRet PyResult := fun A a => Return a.
#[export] Instance PyResult_bind : MBind PyResult := fun A B f m =>
  match m with
  | Return a => f a
  | Raise e => Raise e
  end.

(** Exceptions raised by the interpreter or by the engine itself. *)
Definition AssertionError (msg : string) : PyExc := mkExc "AssertionError" true msg [].
Definition ValueError (msg : string) : PyExc := mkExc "ValueError" true msg [].
Definition TypeError (msg : string) : PyExc := mkExc "TypeError" true msg [].
Definition KeyError (msg : string) : PyExc := mkExc "KeyError" true msg [].
Definition IndexError (msg : string) : PyExc := mkExc "IndexError" true msg [].

(** ** Python values used as versions and version specs *)

Inductive PyVal :=
| VNone
| VInt (z : Z)
| VTuple (items : list PyVal).

(** [a == b]: structural, never raises on these values. *)
Fixpoint py_eq (a b : PyVal) {struct a} : bool :=
  match a, b with
  | VNone, VNone => true
  | VInt x, VInt y => Z.eqb x y
  | VTuple xs, VTuple ys =>
      (fix go (xs ys : list PyVal) {struct xs} : bool :=
         match xs, ys with
         | [], [] => true
         | x :: xs', y :: ys' => py_eq x y && go xs' ys'
         | _, _ => false
         end) xs ys
  | _, _ => false
  end.

Inductive Ordering := Lt | Gt | Le | Ge.

Definition Z_order (o : Ordering) (x y : Z) : bool :=
  match o with
  | Lt => Z.ltb x y
  | Gt => Z.ltb y x
  | Le => Z.leb x y
  | Ge => Z.leb y x
  end.

(** [a < b], [a > b], [a <= b], [a >= b]: integers by value, tuples
    lexicographically (the first position where the items are not equal
    decides, otherwise the lengths), anything else is a [TypeError]. *)
Fixpoint py_order (o : Ordering) (a b : PyVal) {struct a} : PyResult bool :=
  match a, b with
  | VInt x, VInt y => Return (Z_order o x y)
  | VTuple xs, VTuple ys =>
      (fix go (xs ys : list PyVal) {struct xs} : PyResult bool :=
         match xs, ys with
         | x :: xs', y :: ys' =>
             if py_eq x y then go xs' ys' else py_order o x y
         | _, _ => Return (Z_order o (Z.of_nat (length xs)) (Z.of_nat (length ys)))
         end) xs ys
  | _, _ => Raise (TypeError "unorderable types")
  end.

(** [v[i]] *)
Definition getitem (v : PyVal) (i : nat) : PyResult PyVal :=
  match v with
  | VTuple items =>
      match items !! i with
      | Some x => Return x
      | None => Raise (IndexError "tuple index out of range")
      end
  | _ => Raise (TypeError "object is not subscriptable")
  end.

(** [str(v)] *)
Fixpoint py_str (v : PyVal) : string :=
  match v with
  | VNone => "None"
  | VInt z => pretty z
  | VTuple items =>
      match items with
      | [] => "()"
      | [x] => "(" +:+ py_str x +:+ ",)"
      | x :: rest =>
          "(" +:+ py_str x +:+
          (fix go (l : list PyVal) : string :=
             match l with
             | [] => ")"
             | y :: l' => ", " +:+ py_str y +:+ go l'
             end) rest
      end
  end.

(** ** The environment configuration *)

(** [config.db]: the engine, with the attributes the predicates read:
    [engine.name], [engine.driver], [engine.dialect.server_version_info]
    (absent or [None] is [None] here), and the two names of
    [engine.url]. *)
Record Engine := {
  name : string;
  driver : string;
  server_version_info : option PyVal;
  get_backend_name : string;
  get_driver_name : string
}.

Record Config := { db : Engine }.

(** ** Predicates *)

(** [SpecPredicate.op]: a key of [_ops] or a callable (kept with its
    [str()]). *)
Inductive Op :=
| OpKey (key : string)
| OpCallable (f : PyVal -> PyVal -> PyResult bool) (repr : string).

Inductive Predicate :=
| BooleanPredicate (value : bool) (description : string)
| SpecPredicate (db : string) (op : option Op) (spec : PyVal)
    (description : option string)
| LambdaPredicate (lambda_ : option Config -> PyResult bool)
    (description : string)
| NotPredicate (predicate : Predicate) (description : option string)
| OrPredicate (predicates : list Predicate) (description : option string).

(** *** SpecPredicate *)

(** [SpecPredicate.__init__]: stores its four arguments. *)
Definition SpecPredicate___init__ (db : string) (op : option Op)
    (spec : PyVal) (description : option string) : PyResult Predicate :=
  Return (SpecPredicate db op spec description).

(** [lambda val, pair: val >= pair[0] and val <= pair[1]] *)
Definition between (val pair : PyVal) : PyResult bool :=
  p0 ← getitem pair 0;
  lo ← py_order Ge val p0;
  if lo : bool then
    p1 ← getitem pair 1;
    py_order Le val p1
  else Return false.

(** [operator.contains(a, b)] is [b in a]. *)
Definition operator_contains (a b : PyVal) : PyResult bool :=
  match a with
  | VTuple items => Return (existsb (fun x => py_eq x b) items)
  | _ => Raise (TypeError "argument is not iterable")
  end.

Definition operator_eq (a b : PyVal) : PyResult bool := Return (py_eq a b).
Definition operator_ne (a b : PyVal) : PyResult bool := Return (negb (py_eq a b)).

(** [SpecPredicate._ops] *)
Definition _ops (key : string) : option (PyVal -> PyVal -> PyResult bool) :=
  match key with
  | "<" => Some (py_order Lt)
  | ">" => Some (py_order Gt)
  | "==" => Some operator_eq
  | "!=" => Some operator_ne
  | "<=" => Some (py_order Le)
  | ">=" => Some (py_order Ge)
  | "in" => Some operator_contains
  | "between" => Some between
  | _ => None
  end.

(** [_server_version(engine)] *)
Definition _server_version (engine : Engine) : PyVal :=
  match server_version_info engine with
  | Some version => version
  | None => VTuple []
  end.

(** [c in s] for a one-character [c]. *)
Fixpoint str_contains (c : ascii) (s : string) : bool :=
  match s with
  | EmptyString => false
  | String a s' => Ascii.eqb a c || str_contains c s'
  end.

(** [s.split(c)] for a one-character separator [c]. *)
Fixpoint str_split (c : ascii) (s : string) : list string :=
  match s with
  | EmptyString => [EmptyString]
  | String a s' =>
      if Ascii.eqb a c then EmptyString :: str_split c s'
      else match str_split c s' with
           | piece :: rest => String a piece :: rest
           | [] => [String a EmptyString]
           end
  end.

(** The head of [SpecPredicate.__call__]: [dialect, driver] from
    [self.db]; unpacking anything but two pieces raises [ValueError]. *)
Definition dialect_driver (self_db : string) : PyResult (string * option string) :=
  if str_contains "+"%char self_db then
    match str_split "+"%char self_db with
    | [dialect; driver] => Return (dialect, Some driver)
    | _ => Raise (ValueError "too many values to unpack (expected 2)")
    end
  else Return (self_db, None).

(** Truth value of a string. *)
Definition str_bool (s : string) : bool :=
  match s with
  | EmptyString => false
  | _ => true
  end.

(** [SpecPredicate.__call__] *)
Definition SpecPredicate___call__ (self_db : string) (self_op : option Op)
    (self_spec : PyVal) (config : option Config) : PyResult bool :=
  match config with
  | None => Return false
  | Some config =>
      let engine := db config in
      '(dialect, driver_) ← dialect_driver self_db;
      if str_bool dialect && negb (String.eqb (name engine) dialect) then
        Return false
      else if match driver_ with
              | Some d => negb (String.eqb (driver engine) d)
              | None => false
              end then
        Return false
      else
        match self_op with
        | Some op_ =>
            match driver_ with
            | Some _ =>
                Raise (AssertionError "DBAPI version specs not supported yet")
            | None =>
                let version := _server_version engine in
                oper ← match op_ with
                       | OpCallable f _ => Return f
                       | OpKey key =>
                           match _ops key with
                           | Some f => Return f
                           | None => Raise (KeyError key)
                           end
                       end;
                oper version self_spec
            end
        | None => Return true
        end
  end.

(** *** Evaluation: the [__call__] of each class *)
Fixpoint call (self : Predicate) (config : option Config) : PyResult bool :=
  match self with
  | BooleanPredicate value _ => Return value
  | SpecPredicate db_ op_ spec_ _ => SpecPredicate___call__ db_ op_ spec_ config
  | LambdaPredicate lambda_ _ => lambda_ config
  | NotPredicate predicate _ =>
      b ← call predicate config;
      Return (negb b)
  | OrPredicate predicates _ =>
      (fix any (preds : list Predicate) : PyResult bool :=
         match preds with
         | [] => Return false
         | pred :: rest =>
             b ← call pred config;
             if b : bool then Return true else any rest
         end) predicates
  end.

(** ** Descriptions *)

(** The mapping that [_format_description] applies the description to. *)
Record DescriptionArgs := {
  arg_driver : string;
  arg_database : string;
  arg_doesnt_support : string;
  arg_does_support : string
}.

(** [self.description] *)
Definition description_of (self : Predicate) : option string :=
  match self with
  | BooleanPredicate _ d => Some d
  | SpecPredicate _ _ _ d => d
  | LambdaPredicate _ d => Some d
  | NotPredicate _ d => d
  | OrPredicate _ d => d
  end.

(** [sep.join(l)] *)
Fixpoint str_join (sep : string) (l : list string) : string :=
  match l with
  | [] => ""
  | [s] => s
  | s :: rest => s +:+ sep +:+ str_join sep rest
  end.

(** [str(op)] *)
Definition op_str (o : Op) : string :=
  match o with
  | OpKey key => key
  | OpCallable _ repr => repr
  end.

(** [config.skip_test(msg)] raises the skip signal of the test runner. *)
Definition SkipTest (msg : string) : PyExc := mkExc "SkipTest" true msg [].

(** Modelled from the spec: [config.skip_test], of the sibling module
    [config], is not among the sources. The spec has the wrapper leave
    through a skip signal that carries the reason; here the signal is the
    exception [SkipTest] raised with the message it is given. *)
Definition skip_test (msg : string) : PyResult unit := Raise (SkipTest msg).

(** Modelled from the spec: [util.raise_], of the sibling module [util],
    is not among the sources. The spec has the wrapper raise the original
    error again with its original stack context; here the exception given
    is raised with the traceback given. *)
Definition raise_ {A : Type} (exception : PyExc) (with_traceback : list string)
    : PyResult A :=
  Raise (mkExc (exc_class exception) (exc_is_Exception exception)
               (exc_str exception) with_traceback).

(** ** Rules *)

(** Identity of a predicate object. *)
Definition PredId := positive.

(** [compound]: the three sets of a rule. *)
Record compound := {
  fails : gset PredId;
  skips : gset PredId;
  tags : gset string
}.

(** [compound.__init__] *)
Definition compound___init__ : compound :=
  {| fails := ∅; skips := ∅; tags := ∅ |}.

(** Truth value of a set. *)
Definition set_bool `{Countable K} (s : gset K) : bool := bool_decide (s ≠ ∅).

(** [compound.include_test] *)
Definition include_test (self : compound) (include_tags exclude_tags : gset string)
    : bool :=
  negb (set_bool (tags self ∩ exclude_tags))
  && (negb (set_bool include_tags) || set_bool (tags self ∩ include_tags)).

(** ** The state the wrapper acts on *)

(** What the wrapper can change outside itself: the lines printed, and
    how many times a wrapped test body was entered. *)
Record World := {
  stdout : list string;
  invocations : nat
}.

Definition print (line : string) (w : World) : World :=
  {| stdout := stdout w ++ [line]; invocations := invocations w |}.

(** A wrapped test function: its [__name__] and what a call does. *)
Record TestFn (R : Type) := {
  fn_name : string;
  fn_body : World -> PyResult R * World
}.
Arguments fn_name {R} _.
Arguments fn_body {R} _.

(** The call of [fn] with the arguments the wrapper was given. *)
Definition invoke {R : Type} (fn : TestFn R) (w : World) : PyResult R * World :=
  fn_body fn {| stdout := stdout w; invocations := S (invocations w) |}.

Section Engine.

(** The interpreter's [description % mapping]. *)
Variable str_mod : string -> DescriptionArgs -> PyResult string.

(** The object table: the predicate behind each identity. *)
Variable deref : PredId -> Predicate.

(** The order in which a set of predicates is iterated. *)
Variable set_iter : gset PredId -> list PredId.

(** [config.get_current_test_name()] *)
Variable get_current_test_name : string.

(** [Predicate._format_description] *)
Definition _format_description (self : Predicate) (config : option Config)
    (negate : bool) : PyResult string :=
  bool_ ← call self config;
  let bool_ := if negate then negb negate else bool_ in
  match description_of self with
  | None => Raise (TypeError "unsupported operand type(s) for %")
  | Some description =>
      str_mod description
        {| arg_driver := match config with
                         | Some c => get_driver_name (db c)
                         | None => "<no driver>"
                         end;
           arg_database := match config with
                           | Some c => get_backend_name (db c)
                           | None => "<no database>"
                           end;
           arg_doesnt_support :=
             if bool_ : bool then "doesn't support" else "does support";
           arg_does_support :=
             if bool_ : bool then "does support" else "doesn't support" |}
  end.

(** The [_as_string] of each class, with [OrPredicate._eval_str] and
    [OrPredicate._negation_str] in place. *)
Fixpoint _as_string (self : Predicate) (config : option Config) (negate : bool)
    {struct self} : PyResult string :=
  match self with
  | BooleanPredicate _ _ => _format_description self config negate
  | SpecPredicate db_ op_ spec_ description =>
      match description, op_ with
      | Some _, _ => _format_description self config false
      | None, None =>
          if negate then Return ("not " +:+ db_) else Return db_
      | None, Some o =>
          if negate
          then Return ("not " +:+ db_ +:+ " " +:+ op_str o +:+ " " +:+ py_str spec_)
          else Return (db_ +:+ " " +:+ op_str o +:+ " " +:+ py_str spec_)
      end
  | LambdaPredicate _ _ => _format_description self config false
  | NotPredicate predicate description =>
      if match description with Some d => str_bool d | None => false end
      then _format_description self config (negb negate)
      else _as_string predicate config (negb negate)
  | OrPredicate predicates description =>
      let _eval_str (negate : bool) : PyResult string :=
        pieces ← (fix each (preds : list Predicate) : PyResult (list string) :=
                    match preds with
                    | [] => Return []
                    | p :: rest =>
                        s ← _as_string p config negate;
                        ss ← each rest;
                        Return (s :: ss)
                    end) predicates;
        Return (str_join (if negate then " and " else " or ") pieces) in
      if negate then
        match description with
        | Some _ =>
            s ← _format_description self config false;
            Return ("Not " +:+ s)
        | None => _eval_str true
        end
      else
        match description with
        | Some _ => _format_description self config false
        | None => _eval_str false
        end
  end.

(** [compound.enabled_for_config]: the loop over
    [self.skips.union(self.fails)]. *)
Fixpoint enabled_loop (preds : list PredId) (config : option Config)
    : PyResult bool :=
  match preds with
  | [] => Return true
  | predicate :: rest =>
      b ← call (deref predicate) config;
      if b : bool then Return false else enabled_loop rest config
  end.

Definition enabled_for_config (self : compound) (config : option Config)
    : PyResult bool :=
  enabled_loop (set_iter (skips self ∪ fails self)) config.

(** [compound.matching_config_reasons] *)
Fixpoint reasons_loop (preds : list PredId) (config : option Config)
    : PyResult (list string) :=
  match preds with
  | [] => Return []
  | predicate :: rest =>
      b ← call (deref predicate) config;
      if b : bool then
        s ← _as_string (deref predicate) config false;
        ss ← reasons_loop rest config;
        Return (s :: ss)
      else reasons_loop rest config
  end.

Definition matching_config_reasons (self : compound) (config : option Config)
    : PyResult (list string) :=
  reasons_loop (set_iter (skips self ∪ fails self)) config.

(** The first loop of [compound._do]: [for skip in self.skips]. *)
Fixpoint skip_loop (preds : list PredId) (cfg : option Config) : PyResult unit :=
  match preds with
  | [] => Return ()
  | skip :: rest =>
      b ← call (deref skip) cfg;
      if b : bool then
        s ← _as_string (deref skip) cfg false;
        let msg := "'" +:+ get_current_test_name +:+ "' : " +:+ s in
        _ ← skip_test msg;
        skip_loop rest cfg
      else skip_loop rest cfg
  end.

(** [compound._expect_failure]: the loop over [self.fails] with its
    [else] branch. [exc_info_tb] is [sys.exc_info()[2]], the traceback of
    the exception being handled; the interpreter is Python 3
    ([util.py2k] false), so [str_ex] is [str(ex)]. *)
Fixpoint expect_failure_loop (preds : list PredId) (config : option Config)
    (ex : PyExc) (exc_info_tb : list string) (name_ : string) (w : World)
    : PyResult unit * World :=
  match preds with
  | [] => (raise_ ex exc_info_tb, w)
  | fail :: rest =>
      match call (deref fail) config with
      | Raise e => (Raise e, w)
      | Return true =>
          let str_ex := exc_str ex in
          match _as_string (deref fail) config false with
          | Raise e => (Raise e, w)
          | Return s =>
              (Return (),
               print (name_ +:+ " failed as expected (" +:+ s +:+ "): "
                      +:+ str_ex +:+ " ") w)
          end
      | Return false =>
          expect_failure_loop rest config ex exc_info_tb name_ w
      end
  end.

Definition _expect_failure (self : compound) (config : option Config)
    (ex : PyExc) (exc_info_tb : list string) (name_ : string) (w : World)
    : PyResult unit * World :=
  expect_failure_loop (set_iter (fails self)) config ex exc_info_tb name_ w.

(** The generator [fail._as_string(config) for fail in self.fails]. *)
Fixpoint all_descriptions (preds : list PredId) (config : option Config)
    : PyResult (list string) :=
  match preds with
  | [] => Return []
  | fail :: rest =>
      s ← _as_string (deref fail) config false;
      ss ← all_descriptions rest config;
      Return (s :: ss)
  end.

(** [compound._expect_success]: the loop; [all_fails] is [self.fails] as
    the message iterates it. *)
Fixpoint expect_success_loop (preds all_fails : list PredId)
    (config : option Config) (name_ : string) : PyResult unit :=
  match preds with
  | [] => Return ()
  | fail :: rest =>
      b ← call (deref fail) config;
      if b : bool then
        ss ← all_descriptions all_fails config;
        Raise (AssertionError ("Unexpected success for '" +:+ name_ +:+ "' ("
                               +:+ str_join " and " ss +:+ ")"))
      else expect_success_loop rest all_fails config name_
  end.

Definition _expect_success (self : compound) (config : option Config)
    (name_ : string) : PyResult unit :=
  if negb (set_bool (fails self)) then Return ()
  else expect_success_loop (set_iter (fails self)) (set_iter (fails self))
         config name_.

(** [compound._do]. The result is [None] when the body raised as
    expected, and the body's return value otherwise. *)
Definition _do {R : Type} (self : compound) (cfg : option Config)
    (fn : TestFn R) (w : World) : PyResult (option R) * World :=
  match skip_loop (set_iter (skips self)) cfg with
  | Raise e => (Raise e, w)
  | Return _ =>
      match invoke fn w with
      | (Raise ex, w') =>
          if exc_is_Exception ex then
            match _expect_failure self cfg ex (exc_traceback ex) (fn_name fn) w' with
            | (Raise e, w'') => (Raise e, w'')
            | (Return _, w'') => (Return None, w'')
            end
          else (Raise ex, w')
      | (Return return_value, w') =>
          match _expect_success self cfg (fn_name fn) with
          | Raise e => (Raise e, w')
          | Return _ => (Return (Some return_value), w')
          end
      end
  end.

(** [compound.fail_if], the context manager around a block of code. The
    block is what runs at the [yield]; [current] is [config._current]. An
    exception that the handler lets through leaves the [with] statement
    as it was raised. *)
Definition fail_if (self : compound) (current : option Config)
    (block : World -> PyResult unit * World) (w : World)
    : PyResult unit * World :=
  let all_fails :=
    {| fails := fails compound___init__ ∪ (skips self ∪ fails self);
       skips := skips compound___init__;
       tags := tags compound___init__ |} in
  match block w with
  | (Raise ex, w') =>
      if exc_is_Exception ex then
        _expect_failure all_fails current ex (exc_traceback ex) "block" w'
      else (Raise ex, w')
  | (Return _, w') =>
      match _expect_success all_fails current "block" with
      | Raise e => (Raise e, w')
      | Return _ => (Return (), w')
      end
  end.

End Engine.

(** ** Rule objects and their composition *)

(** Identity of a [compound] object. The store maps the rules that exist
    to their current fields; the methods below that create or change a
    rule are programs on the store, and fail only on a dangling
    reference. *)
Definition Ref := positive.

(** [compound()]: a new object, with three empty sets. *)
Definition new_compound (h : gmap Ref compound) : Ref * gmap Ref compound :=
  let r := fresh (dom h) in (r, <[r := compound___init__]> h).

(** [dst.fails.update(src.fails)] *)
Definition update_fails (dst src : Ref) (h : gmap Ref compound)
    : option (gmap Ref compound) :=
  s ← h !! src;
  d ← h !! dst;
  Some (<[dst := {| fails := fails d ∪ fails s; skips := skips d; tags := tags d |}]> h).

(** [dst.skips.update(src.skips)] *)
Definition update_skips (dst src : Ref) (h : gmap Ref compound)
    : option (gmap Ref compound) :=
  s ← h !! src;
  d ← h !! dst;
  Some (<[dst := {| fails := fails d; skips := skips d ∪ skips s; tags := tags d |}]> h).

(** [dst.tags.update(src.tags)] *)
Definition update_tags (dst src : Ref) (h : gmap Ref compound)
    : option (gmap Ref compound) :=
  s ← h !! src;
  d ← h !! dst;
  Some (<[dst := {| fails := fails d; skips := skips d; tags := tags d ∪ tags s |}]> h).

(** The loop of [compound.add]: [for other in others]. *)
Fixpoint add_loop (copy : Ref) (others : list Ref) (h : gmap Ref compound)
    : option (gmap Ref compound) :=
  match others with
  | [] => Some h
  | other :: rest =>
      h ← update_fails copy other h;
      h ← update_skips copy other h;
      h ← update_tags copy other h;
      add_loop copy rest h
  end.

(** [compound.add] *)
Definition add (self : Ref) (others : list Ref) (h : gmap Ref compound)
    : option (Ref * gmap Ref compound) :=
  let '(copy, h) := new_compound h in
  h ← update_fails copy self h;
  h ← update_skips copy self h;
  h ← update_tags copy self h;
  h ← add_loop copy others h;
  Some (copy, h).

(** [compound.__add__] *)
Definition __add__ (self other : Ref) (h : gmap Ref compound)
    : option (Ref * gmap Ref compound) :=
  add self [other] h.

(** [compound._extend]: changes [self] in place. *)
Definition _extend (self other : Ref) (h : gmap Ref compound)
    : option (gmap Ref compound) :=
  h ← update_skips self other h;
  h ← update_fails self other h;
  update_tags self other h.

(** [dst.skips.update(src.fails)] *)
Definition update_skips_from_fails (dst src : Ref) (h : gmap Ref compound)
    : option (gmap Ref compound) :=
  s ← h !! src;
  d ← h !! dst;
  Some (<[dst := {| fails := fails d; skips := skips d ∪ fails s; tags := tags d |}]> h).

(** [compound.as_skips] *)
Definition as_skips (self : Ref) (h : gmap Ref compound)
    : option (Ref * gmap Ref compound) :=
  let '(rule, h) := new_compound h in
  h ← update_skips rule self h;
  h ← update_skips_from_fails rule self h;
  h ← update_tags rule self h;
  Some (rule, h).

(** A function object as [compound.__call__] sees it: the test function
    it stands for, and the rule in its attribute [_sa_exclusion_extend]
    when it has the attribute. *)
Record PyFn (R : Type) := {
  fn_wrapped : TestFn R;
  _sa_exclusion_extend : option Ref
}.
Arguments fn_wrapped {R} _.
Arguments _sa_exclusion_extend {R} _.

(** [compound.__call__]: a function that carries a rule has the rule
    extended in place and is returned itself; any other function is
    decorated, and the decorated function carries [self]. *)
Definition compound___call__ {R : Type} (self : Ref) (fn : PyFn R)
    (h : gmap Ref compound) : option (PyFn R * gmap Ref compound) :=
  match _sa_exclusion_extend fn with
  | Some rule =>
      h ← _extend rule self h;
      Some (fn, h)
  | None =>
      Some ({| fn_wrapped := fn_wrapped fn; _sa_exclusion_extend := Some self |}, h)
  end.

Section Decorated.

Variable str_mod : string -> DescriptionArgs -> PyResult string.
Variable deref : PredId -> Predicate.
Variable set_iter : gset PredId -> list PredId.
Variable get_current_test_name : string.

(** Modelled from the spec: [util.decorator], of the sibling module
    [util], is not among the sources. The spec has one enforcement layer
    around a wrapped test, the rule it carries being read when the test
    runs; here a call of a decorated function is the call of [decorate]
    in [compound.__call__], that is [_do] of the rule in the attribute as
    the store has it at the call, with [config._current] and the function
    wrapped, and a call of any other function is a call of its body. *)
Definition call_PyFn {R : Type} (fn : PyFn R) (current : option Config)
    (h : gmap Ref compound) (w : World)
    : option (PyResult (option R) * World) :=
  match _sa_exclusion_extend fn with
  | Some self =>
      rule ← h !! self;
      Some (_do str_mod deref set_iter get_current_test_name rule current
              (fn_wrapped fn) w)
  | None =>
      Some (match invoke (fn_wrapped fn) w with
            | (Return v, w') => (Return (Some v), w')
            | (Raise e, w') => (Raise e, w')
            end)
  end.

End Decorated.

(** ** Builders *)

(** A function given as a predicate: one that takes no argument or one
    that takes the configuration, with its [__doc__]. *)
Inductive PyFunction :=
| Fn0 (body : PyResult bool) (doc : option string)
| Fn1 (body : option Config -> PyResult bool) (doc : option string).

(** What [Predicate.as_predicate] is given. A tuple is the positional
    arguments of [SpecPredicate], from one to four of them, those left
    out at their defaults; [DTupleArity] is a tuple of any other
    length. *)
Inductive Descriptor :=
| DCompound (rule : compound)
| DPredicate (p : Predicate)
| DList (items : list Descriptor)
| DTuple (db : string) (op : option Op) (spec : PyVal) (description : option string)
| DTupleArity
| DStr (s : string)
| DCallable (f : PyFunction)
| DOther (repr : string).

(** Truth value of an optional string: neither [None] nor empty. *)
Definition opt_str_bool (s : option string) : bool :=
  match s with
  | Some d => str_bool d
  | None => false
  end.

(** [BooleanPredicate.__init__] *)
Definition BooleanPredicate___init__ (value : bool) (description : option string)
    : Predicate :=
  BooleanPredicate value
    (match description with
     | Some d => if str_bool d then d
                 else "boolean " +:+ (if value then "True" else "False")
     | None => "boolean " +:+ (if value then "True" else "False")
     end).

(** [LambdaPredicate.__init__] *)
Definition LambdaPredicate___init__ (lambda_ : PyFunction)
    (description : option string) : Predicate :=
  let doc := match lambda_ with Fn0 _ d => d | Fn1 _ d => d end in
  LambdaPredicate
    (match lambda_ with
     | Fn0 body _ => fun _ => body
     | Fn1 body _ => body
     end)
    (match description with
     | Some d => if str_bool d then d
                 else if opt_str_bool doc then default "" doc
                 else "custom function"
     | None => if opt_str_bool doc then default "" doc else "custom function"
     end).

(** [predicate.description = description], done by [as_predicate] when a
    description is given and the predicate has none. *)
Definition set_description (p : Predicate) (description : option string)
    : Predicate :=
  if opt_str_bool description then
    match p with
    | SpecPredicate db_ op_ spec_ None => SpecPredicate db_ op_ spec_ description
    | NotPredicate q None => NotPredicate q description
    | OrPredicate ps None => OrPredicate ps description
    | _ => p
    end
  else p.

Definition is_digit (c : ascii) : bool :=
  let n := nat_of_ascii c in (48 <=? n)%nat && (n <=? 57)%nat.

(** [int(d)] on a string of decimal digits; the empty string and any
    other character raise [ValueError]. *)
Fixpoint int_digits (acc : Z) (d : string) : option Z :=
  match d with
  | EmptyString => Some acc
  | String c d' =>
      if is_digit c
      then int_digits (10 * acc + Z.of_nat (nat_of_ascii c - 48)) d'
      else None
  end.

Definition py_int (d : string) : PyResult Z :=
  match d with
  | EmptyString => Raise (ValueError "invalid literal for int() with base 10")
  | _ =>
      match int_digits 0 d with
      | Some z => Return z
      | None => Raise (ValueError "invalid literal for int() with base 10")
      end
  end.

(** [tuple(int(d) for d in group.split("."))] *)
Fixpoint int_tuple (pieces : list string) : PyResult (list PyVal) :=
  match pieces with
  | [] => Return []
  | d :: rest =>
      z ← py_int d;
      zs ← int_tuple rest;
      Return (VInt z :: zs)
  end.

(** The object table with its allocator: a new predicate object takes
    the next identity. *)
Record Objects := {
  next_id : PredId;
  obj : PredId -> Predicate
}.

Definition alloc (p : Predicate) (o : Objects) : PredId * Objects :=
  (next_id o,
   {| next_id := Pos.succ (next_id o); obj := <[next_id o := p]> (obj o) |}).

Section Builders.

(** The order in which a set of predicates is iterated. *)
Variable set_iter : gset PredId -> list PredId.

(** [re.match] with the pattern of [as_predicate]: no match, or the
    groups 1 to 3. *)
Variable re_match : string -> option (string * option string * option string).

(** [util.to_list] *)
Variable to_list : Descriptor -> list Descriptor.

(** [Predicate.as_predicate]. A rule is taken through its bound method
    [enabled_for_config], a function of one argument without a
    docstring. The predicate of a [DPredicate] is returned itself, with
    the description set on it when it had none. *)
Fixpoint as_predicate (o : Objects) (predicate : Descriptor)
    (description : option string) {struct predicate} : PyResult Predicate :=
  match predicate with
  | DCompound rule =>
      Return (LambdaPredicate___init__
                (Fn1 (enabled_for_config (obj o) set_iter rule) None) description)
  | DPredicate p => Return (set_description p description)
  | DList items =>
      preds ← (fix each (l : list Descriptor) : PyResult (list Predicate) :=
                 match l with
                 | [] => Return []
                 | pred :: rest =>
                     p ← as_predicate o pred None;
                     ps ← each rest;
                     Return (p :: ps)
                 end) items;
      Return (OrPredicate preds description)
  | DTuple db_ op_ spec_ description_ =>
      SpecPredicate___init__ db_ op_ spec_ description_
  | DTupleArity => Raise (TypeError "__init__() takes from 2 to 5 positional arguments")
  | DStr s =>
      match re_match s with
      | None => Raise (ValueError ("Couldn't locate DB name in predicate: " +:+ s))
      | Some (db_, op_, group3) =>
          spec_ ← (if opt_str_bool group3
                   then zs ← int_tuple (str_split "."%char (default "" group3));
                        Return (VTuple zs)
                   else Return VNone);
          SpecPredicate___init__ db_ (OpKey <$> op_) spec_ description
      end
  | DCallable f => Return (LambdaPredicate___init__ f description)
  | DOther repr => Raise (AssertionError ("unknown predicate type: " +:+ repr))
  end.

(** [[Predicate.as_predicate(x, description) for x in xs]] *)
Fixpoint as_predicates (o : Objects) (xs : list Descriptor)
    (description : option string) : PyResult (list Predicate) :=
  match xs with
  | [] => Return []
  | x :: rest =>
      p ← as_predicate o x description;
      ps ← as_predicates o rest description;
      Return (p :: ps)
  end.

(** [skip_if]: the rule built is a new object, returned by its fields;
    the predicate put into its set is entered in the object table. *)
Definition skip_if (predicate : Descriptor) (reason : option string)
    (o : Objects) : PyResult (compound * Objects) :=
  pred ← as_predicate o predicate reason;
  let '(i, o') := alloc pred o in
  Return ({| fails := ∅; skips := {[ i ]}; tags := ∅ |}, o').

(** [fails_if] *)
Definition fails_if (predicate : Descriptor) (reason : option string)
    (o : Objects) : PyResult (compound * Objects) :=
  pred ← as_predicate o predicate reason;
  let '(i, o') := alloc pred o in
  Return ({| fails := {[ i ]}; skips := ∅; tags := ∅ |}, o').

(** [only_if] *)
Definition only_if (predicate : Descriptor) (reason : option string)
    (o : Objects) : PyResult (compound * Objects) :=
  predicate ← as_predicate o predicate None;
  skip_if (DPredicate (NotPredicate predicate None)) reason o.

(** [succeeds_if] *)
Definition succeeds_if (predicate : Descriptor) (reason : option string)
    (o : Objects) : PyResult (compound * Objects) :=
  predicate ← as_predicate o predicate None;
  fails_if (DPredicate (NotPredicate predicate None)) reason o.

(** [db_spec] *)
Definition db_spec (o : Objects) (dbs : list Descriptor) : PyResult Predicate :=
  preds ← as_predicates o dbs None;
  Return (OrPredicate preds None).

(** [fails_on_everything_except] *)
Definition fails_on_everything_except (dbs : list Descriptor) (o : Objects)
    : PyResult (compound * Objects) :=
  preds ← as_predicates o dbs None;
  succeeds_if (DPredicate (OrPredicate preds None)) None o.

(** [only_on] *)
Definition only_on (dbs : Descriptor) (reason : option string) (o : Objects)
    : PyResult (compound * Objects) :=
  preds ← as_predicates o (to_list dbs) reason;
  only_if (DPredicate (OrPredicate preds None)) None o.

(** [exclude] *)
Definition exclude (db_ : string) (op_ : option Op) (spec_ : PyVal)
    (reason : option string) (o : Objects) : PyResult (compound * Objects) :=
  p ← SpecPredicate___init__ db_ op_ spec_ None;
  skip_if (DPredicate p) reason o.

(** [against] *)
Definition against (o : Objects) (config : option Config)
    (queries : list Descriptor) : PyResult bool :=
  match queries with
  | [] => Raise (AssertionError "no queries sent!")
  | _ =>
      preds ← as_predicates o queries None;
      call (OrPredicate preds None) config
  end.

(** [open] *)
Definition open_ (o : Objects) : PyResult (compound * Objects) :=
  skip_if (DPredicate (BooleanPredicate___init__ false (Some "mark as execute")))
          None o.

(** [closed] *)
Definition closed (o : Objects) : PyResult (compound * Objects) :=
  skip_if (DPredicate (BooleanPredicate___init__ true (Some "marked as skip")))
          None o.

(** [fails] *)
Definition fails_ (reason : option string) (o : Objects)
    : PyResult (compound * Objects) :=
  fails_if (DPredicate (BooleanPredicate___init__ true
                          (Some (if opt_str_bool reason then default "" reason
                                 else "expected to fail"))))
           None o.

(** The generator [NotPredicate(p) for p in s] of [compound.not_], its
    objects entered in the table as they are made. *)
Fixpoint not_each (preds : list PredId) (o : Objects) : gset PredId * Objects :=
  match preds with
  | [] => (∅, o)
  | p :: rest =>
      let '(i, o1) := alloc (NotPredicate (obj o p) None) o in
      let '(s, o2) := not_each rest o1 in
      ({[ i ]} ∪ s, o2)
  end.

(** [compound.not_]: the rule built is a new object, returned by its
    fields. *)
Definition not_ (self : compound) (o : Objects) : compound * Objects :=
  let '(f, o1) := not_each (set_iter (fails self)) o in
  let '(s, o2) := not_each (set_iter (skips self)) o1 in
  ({| fails := fails compound___init__ ∪ f;
      skips := skips compound___init__ ∪ s;
      tags := tags compound___init__ ∪ tags self |}, o2).

End Builders.

(** [tags] *)
Definition tags_ (tagnames : list string) : compound :=
  {| fails := fails compound___init__;
     skips := skips compound___init__;
     tags := tags compound___init__ ∪ list_to_set tagnames |}.

(** [requires_tag] *)
Definition requires_tag (tagname : string) : compound := tags_ [tagname].

(** ** Notions used in the statements *)

(** The iteration order of a set lists the elements of the set, each
    once. *)
Definition iterates (set_iter : gset PredId -> list PredId) : Prop :=
  ∀ s, set_iter s ≡ₚ elements s.

(** Lexicographic order on integer tuples, as a relation: a proper prefix
    is smaller, otherwise the first position that differs decides. *)
Inductive lex_lt : list Z -> list Z -> Prop :=
| lex_lt_nil y ys : lex_lt [] (y :: ys)
| lex_lt_head x xs y ys : (x < y)%Z -> lex_lt (x :: xs) (y :: ys)
| lex_lt_tail x xs ys : lex_lt xs ys -> lex_lt (x :: xs) (x :: ys).

(** What each ordering operator means on integer tuples. *)
Definition lex_holds (o : Ordering) (xs ys : list Z) : Prop :=
  match o with
  | Lt => lex_lt xs ys
  | Gt => lex_lt ys xs
  | Le => ¬ lex_lt ys xs
  | Ge => ¬ lex_lt xs ys
  end.

(** How many times the character [c] occurs in [s]. *)
Fixpoint str_count (c : ascii) (s : string) : nat :=
  match s with
  | EmptyString => 0
  | String a s' => (if Ascii.eqb a c then 1 else 0) + str_count c s'
  end.

(** The key of [_ops] of each ordering operator. *)
Definition ordering_key (o : Ordering) : string :=
  match o with
  | Lt => "<"
  | Gt => ">"
  | Le => "<="
  | Ge => ">="
  end.

(** The version tuple [(z1, ..., zn)]. *)
Definition int_tuple_val (zs : list Z) : PyVal := VTuple (VInt <$> zs).

(** The rule whose three sets are the unions of those of [a] and [b]. *)
Definition rule_union (a b : compound) : compound :=
  {| fails := fails a ∪ fails b;
     skips := skips a ∪ skips b;
     tags := tags a ∪ tags b |}.

(** No predicate of the list matches the context: each evaluates to
    false. *)
Definition quiet (deref : PredId -> Predicate) (cfg : option Config)
    (l : list PredId) : Prop :=
  Forall (fun i => call (deref i) cfg = Return false) l.

(** The predicate behind [i] evaluates to true. *)
Definition matches (deref : PredId -> Predicate) (cfg : option Config)
    (i : PredId) : bool :=
  match call (deref i) cfg with
  | Return true => true
  | _ => false
  end.

(** A predicate is a version-spec predicate. *)
Definition is_SpecPredicate (p : Predicate) : Prop :=
  match p with
  | SpecPredicate _ _ _ _ => True
  | _ => False
  end.

(** ** Sample environment for the closed instances *)

(** [s] without the prefix [p], when it has it. *)
Fixpoint strip_prefix (p s : string) : option string :=
  match p, s with
  | EmptyString, _ => Some s
  | String a p', String b s' =>
      if Ascii.eqb a b then strip_prefix p' s' else None
  | _, _ => None
  end.

(** The longest prefix of [s] whose characters satisfy [f], and the
    rest. *)
Fixpoint span (f : ascii -> bool) (s : string) : string * string :=
  match s with
  | EmptyString => (EmptyString, EmptyString)
  | String c s' =>
      if f c then let '(taken, rest) := span f s' in (String c taken, rest)
      else (EmptyString, s)
  end.

(** [description % mapping] on descriptions made of plain text and the
    four keys [%(driver)s], [%(database)s], [%(doesnt_support)s] and
    [%(does_support)s]; [%%] is a percent sign and any other use of [%]
    raises. *)
Fixpoint str_mod_keys (fuel : nat) (d : string) (a : DescriptionArgs)
    : PyResult string :=
  match fuel, d with
  | O, _ => Return ""
  | _, EmptyString => Return ""
  | S fuel', String "%" rest =>
      match strip_prefix "%" rest, strip_prefix "(driver)s" rest,
            strip_prefix "(database)s" rest,
            strip_prefix "(doesnt_support)s" rest,
            strip_prefix "(does_support)s" rest with
      | Some r, _, _, _, _ => s ← str_mod_keys fuel' r a; Return ("%" +:+ s)
      | _, Some r, _, _, _ => s ← str_mod_keys fuel' r a; Return (arg_driver a +:+ s)
      | _, _, Some r, _, _ => s ← str_mod_keys fuel' r a; Return (arg_database a +:+ s)
      | _, _, _, Some r, _ =>
          s ← str_mod_keys fuel' r a; Return (arg_doesnt_support a +:+ s)
      | _, _, _, _, Some r =>
          s ← str_mod_keys fuel' r a; Return (arg_does_support a +:+ s)
      | _, _, _, _, _ => Raise (ValueError "unsupported format character")
      end
  | S fuel', String c rest =>
      s ← str_mod_keys fuel' rest a;
      Return (String c s)
  end.

Definition sample_str_mod (d : string) (a : DescriptionArgs) : PyResult string :=
  str_mod_keys (S (String.length d)) d a.

Definition is_word (c : ascii) : bool :=
  let n := nat_of_ascii c in
  is_digit c || ((65 <=? n)%nat && (n <=? 90)%nat)
  || ((97 <=? n)%nat && (n <=? 122)%nat) || (n =? 95)%nat.

Definition is_space (c : ascii) : bool :=
  let n := nat_of_ascii c in ((9 <=? n)%nat && (n <=? 13)%nat) || (n =? 32)%nat.

(** The first of [>=], [==], [!=], [<=], [<], [>] that [s] starts with,
    and the rest. *)
Fixpoint match_op_in (operators : list string) (s : string)
    : option (string * string) :=
  match operators with
  | [] => None
  | o :: rest =>
      match strip_prefix o s with
      | Some r => Some (o, r)
      | None => match_op_in rest s
      end
  end.

Definition match_op (s : string) : option (string * string) :=
  match_op_in [">="; "=="; "!="; "<="; "<"; ">"] s.

(** [re.match] with the pattern of [as_predicate] on ASCII text: the
    backend token, then after blanks an operator and after blanks a
    dotted number, both or neither. *)
Definition sample_re_match (s : string)
    : option (string * option string * option string) :=
  let '(group1, r) := span (fun c => is_word c || Ascii.eqb c "+") s in
  if str_bool group1 then
    match match_op (snd (span is_space r)) with
    | Some (o, r2) =>
        let group3 := fst (span (fun c => is_digit c || Ascii.eqb c ".")
                                (snd (span is_space r2))) in
        if str_bool group3 then Some (group1, Some o, Some group3)
        else Some (group1, None, None)
    | None => Some (group1, None, None)
    end
  else None.

Definition sample_engine (name_ driver_ : string) (version : list Z) : Engine :=
  {| name := name_; driver := driver_;
     server_version_info := Some (int_tuple_val version);
     get_backend_name := name_; get_driver_name := driver_ |}.

Definition sample_config (name_ driver_ : string) (version : list Z) : option Config :=
  Some {| db := sample_engine name_ driver_ version |}.

(** Three predicate objects: [SpecPredicate("sqlite")],
    [SpecPredicate("postgres")] and, at every other identity,
    [BooleanPredicate(True, "marked as skip")]. *)
Definition sample_objects (i : PredId) : Predicate :=
  match i with
  | 1%positive => SpecPredicate "sqlite" None VNone None
  | 2%positive => SpecPredicate "postgres" None VNone None
  | _ => BooleanPredicate true "marked as skip"
  end.

Definition sample_world : World := {| stdout := []; invocations := 0 |}.

(** A test body that returns 7 and one that raises [ValueError("x")]. *)
Definition sample_passing : TestFn Z :=
  {| fn_name := "test_x"; fn_body := fun w => (Return 7%Z, w) |}.

Definition sample_ValueError_x : PyExc :=
  mkExc "ValueError" true "x" ["test_x"].

Definition sample_raising : TestFn Z :=
  {| fn_name := "test_x"; fn_body := fun w => (Raise sample_ValueError_x, w) |}.

(** [util.to_list] on the descriptors used here: a list is itself, any
    other descriptor is the list of that one. *)
Definition sample_to_list (d : Descriptor) : list Descriptor :=
  match d with
  | DList items => items
  | _ => [d]
  end.

(** A rule that fails on sqlite and is skipped on postgres. *)
Definition sample_rule : compound :=
  {| fails := {[ 1%positive ]}; skips := {[ 2%positive ]}; tags := ∅ |}.

(** A store of three rules. *)
Definition sample_store : gmap Ref compound :=
  {[ 1%positive := {| fails := {[ 1%positive ]}; skips := ∅; tags := {[ "fast" ]} |};
     2%positive := {| fails := ∅; skips := {[ 2%positive ]}; tags := {[ "slow" ]} |};
     3%positive := {| fails := {[ 3%positive ]}; skips := {[ 1%positive ]}; tags := ∅ |} ]}.

Definition sample_table : Objects := {| next_id := 4%positive; obj := sample_objects |}.

(** * Properties *)

Open Scope list_scope.

(** ** Strings and the backend string *)

Lemma str_split_without (c : ascii) (s : string) :
  str_contains c s = false -> str_split c s = [s].
Proof.
  induction s as [|a s IH]; simpl; [done|].
  destruct (Ascii.eqb a c); simpl; [done|].
  intros H. by rewrite (IH H).
Qed.

Lemma str_split_at (c : ascii) (s t : string) :
  str_contains c s = false ->
  str_split c (s +:+ String c t) = s :: str_split c t.
Proof.
  induction s as [|a s IH]; simpl.
  - intros _. by rewrite Ascii.eqb_refl.
  - destruct (Ascii.eqb a c); simpl; [done|].
    intros H. by rewrite (IH H).
Qed.

Lemma str_contains_at (c : ascii) (s t : string) :
  str_contains c (s +:+ String c t) = true.
Proof.
  induction s as [|a s IH]; simpl.
  - by rewrite Ascii.eqb_refl.
  - rewrite IH. apply orb_true_r.
Qed.

Lemma dialect_driver_plain (self_db : string) :
  str_contains "+" self_db = false ->
  dialect_driver self_db = Return (self_db, None).
Proof. unfold dialect_driver. by intros ->. Qed.

Lemma dialect_driver_plus (dialect driver_ : string) :
  str_contains "+" dialect = false ->
  str_contains "+" driver_ = false ->
  dialect_driver (dialect +:+ "+" +:+ driver_) = Return (dialect, Some driver_).
Proof.
  intros Hd Hr. unfold dialect_driver.
  change (dialect +:+ "+" +:+ driver_) with (dialect +:+ String "+" driver_).
  rewrite str_contains_at, (str_split_at _ _ _ Hd), (str_split_without _ _ Hr).
  done.
Qed.

Lemma str_bool_true (s : string) : s ≠ "" -> str_bool s = true.
Proof. by destruct s. Qed.

Lemma eqb_ne (s t : string) : s ≠ t -> String.eqb s t = false.
Proof. intros H. by apply String.eqb_neq. Qed.

(** ** Evaluation of a version-spec predicate, case by case *)

Section SpecPredicateCall.

Variables (engine : Engine) (op_ : option Op) (spec_ : PyVal)
  (description : option string).

Lemma spec_call_None (db_ : string) :
  call (SpecPredicate db_ op_ spec_ description) None = Return false.
Proof. reflexivity. Qed.

Lemma spec_call_other_backend (db_ : string) :
  str_contains "+" db_ = false -> db_ ≠ "" -> name engine ≠ db_ ->
  call (SpecPredicate db_ op_ spec_ description)
       (Some {| db := engine |}) = Return false.
Proof.
  intros Hp Hne Hname. simpl. rewrite (dialect_driver_plain _ Hp). simpl.
  by rewrite (str_bool_true _ Hne), (eqb_ne _ _ Hname).
Qed.

Lemma spec_call_other_dialect (dialect driver_ : string) :
  str_contains "+" dialect = false -> str_contains "+" driver_ = false ->
  dialect ≠ "" -> name engine ≠ dialect ->
  call (SpecPredicate (dialect +:+ "+" +:+ driver_) op_ spec_ description)
       (Some {| db := engine |})
  = Return false.
Proof.
  intros Hd Hr Hne Hname. simpl. rewrite (dialect_driver_plus _ _ Hd Hr). simpl.
  by rewrite (str_bool_true _ Hne), (eqb_ne _ _ Hname).
Qed.

Lemma spec_call_other_driver (dialect driver_ : string) :
  str_contains "+" dialect = false -> str_contains "+" driver_ = false ->
  driver engine ≠ driver_ ->
  call (SpecPredicate (dialect +:+ "+" +:+ driver_) op_ spec_ description)
       (Some {| db := engine |})
  = Return false.
Proof.
  intros Hd Hr Hdrv. simpl. rewrite (dialect_driver_plus _ _ Hd Hr). simpl.
  rewrite (eqb_ne _ _ Hdrv). simpl.
  by destruct (str_bool dialect && negb (name engine =? dialect)%string).
Qed.

Lemma spec_call_driver_and_op (dialect driver_ : string) (o : Op) :
  str_contains "+" dialect = false -> str_contains "+" driver_ = false ->
  dialect = "" ∨ name engine = dialect -> driver engine = driver_ ->
  call (SpecPredicate (dialect +:+ "+" +:+ driver_) (Some o) spec_ description)
       (Some {| db := engine |})
  = Raise (AssertionError "DBAPI version specs not supported yet").
Proof.
  intros Hd Hr Hname <-. simpl. rewrite (dialect_driver_plus _ _ Hd Hr). simpl.
  rewrite String.eqb_refl. simpl.
  destruct Hname as [-> | <-]; [done|].
  by rewrite String.eqb_refl, andb_false_r.
Qed.

Lemma spec_call_backend (db_ : string) :
  str_contains "+" db_ = false -> db_ = "" ∨ name engine = db_ ->
  call (SpecPredicate db_ op_ spec_ description)
       (Some {| db := engine |})
  = match op_ with
    | None => Return true
    | Some (OpKey key) =>
        match _ops key with
        | Some oper => oper (_server_version engine) spec_
        | None => Raise (KeyError key)
        end
    | Some (OpCallable f _) => f (_server_version engine) spec_
    end.
Proof.
  intros Hp Hname. simpl. rewrite (dialect_driver_plain _ Hp). simpl.
  assert (str_bool db_ && negb (name engine =? db_)%string = false) as ->.
  { destruct Hname as [-> | <-]; [done|].
    by rewrite String.eqb_refl, andb_false_r. }
  destruct op_ as [[key|f r]|]; [|done..].
  by destruct (_ops key).
Qed.

End SpecPredicateCall.

(** ** Ordering of version tuples *)

Lemma lex_lt_cons (x y : Z) (xs ys : list Z) :
  lex_lt (x :: xs) (y :: ys) ↔ (x < y)%Z ∨ (x = y ∧ lex_lt xs ys).
Proof.
  split.
  - inversion 1; subst; auto.
  - intros [H | [-> H]]; [by apply lex_lt_head | by apply lex_lt_tail].
Qed.

Lemma lex_lt_nil_r (xs : list Z) : ¬ lex_lt xs [].
Proof. inversion 1. Qed.

Lemma py_order_cons (o : Ordering) (x y : PyVal) (xs ys : list PyVal) :
  py_order o (VTuple (x :: xs)) (VTuple (y :: ys))
  = if py_eq x y then py_order o (VTuple xs) (VTuple ys) else py_order o x y.
Proof. reflexivity. Qed.

Lemma py_order_lex (o : Ordering) (xs ys : list Z) :
  ∃ b, py_order o (int_tuple_val xs) (int_tuple_val ys) = Return b
       ∧ (b = true ↔ lex_holds o xs ys).
Proof.
  unfold int_tuple_val. revert ys.
  induction xs as [|x xs IH]; intros [|y ys].
  - exists (Z_order o 0 0). split; [done|].
    pose proof (lex_lt_nil_r []).
    destruct o; unfold Z_order, lex_holds; rewrite ?Z.ltb_lt, ?Z.leb_le;
      naive_solver lia.
  - exists (Z_order o 0 (Z.of_nat (S (length (VInt <$> ys))))). split; [done|].
    pose proof (lex_lt_nil_r (y :: ys)). pose proof (lex_lt_nil y ys).
    destruct o; unfold Z_order, lex_holds; rewrite ?Z.ltb_lt, ?Z.leb_le;
      naive_solver lia.
  - exists (Z_order o (Z.of_nat (S (length (VInt <$> xs)))) 0). split; [done|].
    pose proof (lex_lt_nil_r (x :: xs)). pose proof (lex_lt_nil x xs).
    destruct o; unfold Z_order, lex_holds; rewrite ?Z.ltb_lt, ?Z.leb_le;
      naive_solver lia.
  - rewrite !fmap_cons, py_order_cons. simpl py_eq.
    destruct (Z.eqb_spec x y) as [-> | Hxy].
    + destruct (IH ys) as (b & Hb & Hiff). exists b. split; [done|].
      rewrite Hiff. destruct o; simpl; rewrite lex_lt_cons; intuition lia.
    + exists (Z_order o x y). split; [done|].
      destruct o; simpl; rewrite lex_lt_cons.
      * rewrite Z.ltb_lt. intuition lia.
      * rewrite Z.ltb_lt. intuition lia.
      * rewrite Z.leb_le. intuition lia.
      * rewrite Z.leb_le. intuition lia.
Qed.

Lemma _ops_ordering (o : Ordering) : _ops (ordering_key o) = Some (py_order o).
Proof. by destruct o. Qed.

(** ** Version-spec predicates *)

(** C1, as the spec has it, fails: a predicate whose backend string has a
    driver part is built together with an operator, and then evaluated
    against an absent context and against another backend, all without
    any failure. *)
Lemma SpecPredicate_init_accepts_driver_with_op :
  str_contains "+" "pg+psycopg2" = true
  ∧ SpecPredicate___init__ "pg+psycopg2" (Some (OpKey ">="))
      (int_tuple_val [9; 0]%Z) None
    = Return (SpecPredicate "pg+psycopg2" (Some (OpKey ">="))
                (int_tuple_val [9; 0]%Z) None)
  ∧ call (SpecPredicate "pg+psycopg2" (Some (OpKey ">="))
            (int_tuple_val [9; 0]%Z) None) None = Return false
  ∧ call (SpecPredicate "pg+psycopg2" (Some (OpKey ">="))
            (int_tuple_val [9; 0]%Z) None)
         (sample_config "mysql" "pymysql" [8; 0]%Z) = Return false.
Proof. repeat split. Qed.

(** C1 (amended). Building a version-spec predicate never fails. A driver
    part together with an operator is refused by the evaluation, and only
    for a context that is present and has passed the dialect and driver
    tests: there the evaluation raises [AssertionError]; against an
    absent context, another dialect or another driver it returns
    false. *)
Theorem SpecPredicate_driver_with_op_refused_by_call :
  (∀ db_ op_ spec_ description,
      SpecPredicate___init__ db_ op_ spec_ description
      = Return (SpecPredicate db_ op_ spec_ description))
  ∧ ∀ (dialect driver_ : string) (o : Op) (spec_ : PyVal)
      (description : option string),
      str_contains "+" dialect = false ->
      str_contains "+" driver_ = false ->
      call (SpecPredicate (dialect +:+ "+" +:+ driver_) (Some o) spec_ description)
           None = Return false
      ∧ ∀ engine : Engine,
          call (SpecPredicate (dialect +:+ "+" +:+ driver_) (Some o) spec_
                  description) (Some {| db := engine |})
          = if decide ((dialect = "" ∨ name engine = dialect)
                       ∧ driver engine = driver_)
            then Raise (AssertionError "DBAPI version specs not supported yet")
            else Return false.
Proof.
  split; [done|]. intros dialect driver_ o spec_ description Hd Hr.
  split; [done|]. intros engine.
  destruct (decide _) as [[Hname Hdrv] | Hno].
  - by apply spec_call_driver_and_op.
  - destruct (decide (driver engine = driver_)) as [Hdrv | Hdrv].
    + apply spec_call_other_dialect; [done..| |]; intros ?; apply Hno; auto.
    + by apply spec_call_other_driver.
Qed.

Lemma SpecPredicate_driver_with_op_refused_by_call_witness :
  call (SpecPredicate ("pg" +:+ "+" +:+ "psycopg2") (Some (OpKey ">="))
          (int_tuple_val [9; 0]%Z) None)
       (sample_config "pg" "psycopg2" [9; 1; 0]%Z)
  = Raise (AssertionError "DBAPI version specs not supported yet").
Proof.
  exact (proj2 (proj2 SpecPredicate_driver_with_op_refused_by_call
                  "pg" "psycopg2" (OpKey ">=") (int_tuple_val [9; 0]%Z) None
                  eq_refl eq_refl)
               (sample_engine "pg" "psycopg2" [9; 1; 0]%Z)).
Defined.

(** C7, as the spec has it, fails: the empty backend identifier differs
    from the backend of the context, and the predicate matches; so does
    the predicate that names a driver only. *)
Lemma SpecPredicate_empty_backend_matches :
  "" ≠ name (sample_engine "pg" "psycopg2" [9; 1; 0]%Z)
  ∧ call (SpecPredicate "" None VNone None)
         (sample_config "pg" "psycopg2" [9; 1; 0]%Z) = Return true
  ∧ dialect_driver "+psycopg2" = Return ("", Some "psycopg2")
  ∧ call (SpecPredicate "+psycopg2" None VNone None)
         (sample_config "pg" "psycopg2" [9; 1; 0]%Z) = Return true.
Proof. split; [discriminate | repeat split]. Qed.

(** C7 (amended). Against a present context, a version-spec predicate
    returns false when its backend identifier is not empty and differs
    from the backend of the context, whatever the version, and when its
    driver part differs from the driver of the context. With no driver
    part and a backend identifier that is empty or equal to the backend
    of the context, it returns true without an operator, and with an
    ordering operator it compares the version tuple of the context with
    the tuple of the spec lexicographically. So [("pg", ">=", (9, 0))]
    matches backend pg at version (9, 1, 0) and matches no context of
    backend mysql. *)
Theorem SpecPredicate_call_cases :
  ∀ (engine : Engine) (op_ : option Op) (spec_ : PyVal)
    (description : option string),
    (∀ db_, str_contains "+" db_ = false -> db_ ≠ "" -> name engine ≠ db_ ->
       call (SpecPredicate db_ op_ spec_ description) (Some {| db := engine |})
       = Return false)
    ∧ (∀ dialect driver_,
         str_contains "+" dialect = false -> str_contains "+" driver_ = false ->
         dialect ≠ "" -> name engine ≠ dialect ->
         call (SpecPredicate (dialect +:+ "+" +:+ driver_) op_ spec_ description)
              (Some {| db := engine |}) = Return false)
    ∧ (∀ dialect driver_,
         str_contains "+" dialect = false -> str_contains "+" driver_ = false ->
         driver engine ≠ driver_ ->
         call (SpecPredicate (dialect +:+ "+" +:+ driver_) op_ spec_ description)
              (Some {| db := engine |}) = Return false)
    ∧ (∀ db_, str_contains "+" db_ = false -> db_ = "" ∨ name engine = db_ ->
         call (SpecPredicate db_ None spec_ description) (Some {| db := engine |})
         = Return true)
    ∧ (∀ db_ o xs ys,
         str_contains "+" db_ = false -> db_ = "" ∨ name engine = db_ ->
         server_version_info engine = Some (int_tuple_val xs) ->
         ∃ b, call (SpecPredicate db_ (Some (OpKey (ordering_key o)))
                      (int_tuple_val ys) description) (Some {| db := engine |})
              = Return b
              ∧ (b = true ↔ lex_holds o xs ys))
    ∧ call (SpecPredicate "pg" (Some (OpKey ">=")) (int_tuple_val [9; 0]%Z) None)
           (sample_config "pg" "psycopg2" [9; 1; 0]%Z) = Return true
    ∧ (name engine = "mysql" ->
       call (SpecPredicate "pg" (Some (OpKey ">=")) (int_tuple_val [9; 0]%Z) None)
            (Some {| db := engine |}) = Return false).
Proof.
  intros engine op_ spec_ description. repeat split.
  - apply spec_call_other_backend.
  - apply spec_call_other_dialect.
  - apply spec_call_other_driver.
  - intros db_ Hp Hname. by rewrite spec_call_backend.
  - intros db_ o xs ys Hp Hname Hv.
    rewrite spec_call_backend, _ops_ordering by done.
    unfold _server_version. rewrite Hv. apply py_order_lex.
  - intros Hname. apply spec_call_other_backend; [done..|].
    by rewrite Hname.
Qed.

Lemma SpecPredicate_call_cases_witness :
  ∃ b, call (SpecPredicate "pg" (Some (OpKey (ordering_key Ge)))
               (int_tuple_val [9; 0]%Z) None)
            (sample_config "pg" "psycopg2" [9; 1; 0]%Z) = Return b
       ∧ (b = true ↔ lex_holds Ge [9; 1; 0]%Z [9; 0]%Z).
Proof.
  exact (proj1 (proj2 (proj2 (proj2 (proj2
           (SpecPredicate_call_cases (sample_engine "pg" "psycopg2" [9; 1; 0]%Z)
              None VNone None)))))
           "pg" Ge [9; 1; 0]%Z [9; 0]%Z eq_refl (or_intror eq_refl) eq_refl).
Defined.

Lemma iterates_elem_of (set_iter : gset PredId -> list PredId) (s : gset PredId)
    (i : PredId) :
  iterates set_iter -> i ∈ set_iter s ↔ i ∈ s.
Proof. intros H. by rewrite (H s), elem_of_elements. Qed.

Lemma iterates_elements : iterates elements.
Proof. by intros s. Qed.

Lemma enabled_loop_all_false (deref : PredId -> Predicate) (l : list PredId)
    (config : option Config) :
  Forall (fun i => call (deref i) config = Return false) l ->
  enabled_loop deref l config = Return true.
Proof. induction 1 as [|i l Hi _ IH]; simpl; [done|]. by rewrite Hi. Qed.

(** C10. Evaluated against an absent context, a version-spec predicate
    returns false, whatever its backend string, operator and spec; so a
    rule whose skip and fail predicates are all version-spec predicates
    is enabled when there is no context. *)
Theorem SpecPredicate_without_config :
  (∀ db_ op_ spec_ description,
      call (SpecPredicate db_ op_ spec_ description) None = Return false)
  ∧ ∀ (deref : PredId -> Predicate) (set_iter : gset PredId -> list PredId)
      (self : compound),
      iterates set_iter ->
      (∀ i, i ∈ skips self ∪ fails self -> is_SpecPredicate (deref i)) ->
      enabled_for_config deref set_iter self None = Return true.
Proof.
  split; [done|]. intros deref set_iter self Hiter Hspec.
  apply enabled_loop_all_false, list.Forall_forall. intros i Hi.
  apply (iterates_elem_of _ _ _ Hiter), Hspec in Hi.
  by destruct (deref i).
Qed.

Lemma SpecPredicate_without_config_witness :
  enabled_for_config sample_objects elements
    {| fails := {[ 1%positive ]}; skips := {[ 2%positive ]}; tags := ∅ |} None
  = Return true.
Proof.
  apply (proj2 SpecPredicate_without_config sample_objects elements).
  - apply iterates_elements.
  - intros i Hi. simpl in Hi.
    apply elem_of_union in Hi as [->%elem_of_singleton | ->%elem_of_singleton];
      exact I.
Defined.

(** ** Tag filtering *)

Lemma set_bool_true `{Countable K} (s : gset K) : set_bool s = true ↔ s ≠ ∅.
Proof. unfold set_bool. by rewrite bool_decide_eq_true. Qed.

Lemma set_bool_false `{Countable K} (s : gset K) : set_bool s = false ↔ s = ∅.
Proof.
  unfold set_bool. rewrite bool_decide_eq_false. split; [|by intros ->; auto].
  intros Hn. by destruct (decide (s = ∅)).
Qed.

Lemma include_test_true (self : compound) (include_tags exclude_tags : gset string) :
  include_test self include_tags exclude_tags = true
  ↔ tags self ∩ exclude_tags = ∅
    ∧ (include_tags = ∅ ∨ tags self ∩ include_tags ≠ ∅).
Proof.
  unfold include_test.
  by rewrite andb_true_iff, orb_true_iff, !negb_true_iff, !set_bool_false,
    set_bool_true.
Qed.

(** C5. A rule's test is included in the run exactly when its tags do not
    meet [exclude_tags] and either [include_tags] is empty or its tags
    meet [include_tags]. With no tag to include and the tag slow to
    exclude, a test tagged slow is left out and a test without tags is
    kept. *)
Theorem include_test_iff :
  (∀ (self : compound) (include_tags exclude_tags : gset string),
      include_test self include_tags exclude_tags = true
      ↔ tags self ∩ exclude_tags = ∅
        ∧ (include_tags = ∅ ∨ tags self ∩ include_tags ≠ ∅))
  ∧ (∀ f s, include_test {| fails := f; skips := s; tags := {[ "slow" ]} |}
              ∅ {[ "slow" ]} = false)
  ∧ (∀ f s, include_test {| fails := f; skips := s; tags := ∅ |}
              ∅ {[ "slow" ]} = true).
Proof.
  split; [apply include_test_true|]. split; intros f s.
  - apply not_true_is_false. rewrite include_test_true. simpl.
    intros [H _]. set_solver.
  - apply include_test_true. simpl. split; [set_solver | by left].
Qed.

(** C3, as the spec has it, fails: with the tag fast to include and none
    to exclude, a test without tags is left out, and its tag set is not
    the set of the one tag slow. *)
Lemma include_test_fast_excludes_untagged :
  (∅ : gset string) ≠ {[ "slow" ]}
  ∧ include_test {| fails := ∅; skips := ∅; tags := ∅ |} {[ "fast" ]} ∅ = false.
Proof.
  split; [set_solver|].
  apply not_true_is_false. rewrite include_test_true. simpl.
  intros [_ [H | H]]; set_solver.
Qed.

(** C3 (amended). With the tag fast to include and none to exclude, a
    test is included exactly when fast is among its tags: a test tagged
    slow is left out, a test without tags is left out as well, and a
    test tagged fast is kept. *)
Theorem include_test_fast :
  (∀ self : compound,
      include_test self {[ "fast" ]} ∅ = true ↔ "fast" ∈ tags self)
  ∧ (∀ f s, include_test {| fails := f; skips := s; tags := {[ "slow" ]} |}
              {[ "fast" ]} ∅ = false)
  ∧ (∀ f s, include_test {| fails := f; skips := s; tags := ∅ |}
              {[ "fast" ]} ∅ = false)
  ∧ (∀ f s, include_test {| fails := f; skips := s; tags := {[ "fast" ]} |}
              {[ "fast" ]} ∅ = true).
Proof.
  assert (∀ self : compound,
      include_test self {[ "fast" ]} ∅ = true ↔ "fast" ∈ tags self) as Hiff.
  { intros self. rewrite include_test_true. split.
    - intros [_ [H | H]]; [by apply non_empty_singleton_L in H|].
      apply set_choose_L in H as [x Hx].
      by apply elem_of_intersection in Hx as [? ->%elem_of_singleton].
    - intros H. split; [apply (right_absorb_L ∅ (∩))|]. right. intros Heq.
      assert ("fast" ∈ tags self ∩ {[ "fast" ]}) as Hin by set_solver.
      rewrite Heq in Hin. by apply not_elem_of_empty in Hin. }
  split; [done|]. split; [|split]; intros f s.
  - apply not_true_is_false. rewrite Hiff. simpl.
    by intros ?%elem_of_singleton.
  - apply not_true_is_false. rewrite Hiff. simpl. apply not_elem_of_empty.
  - apply Hiff. simpl. by apply elem_of_singleton.
Qed.

(** ** Composition of rules *)

Lemma rule_union_comm (a b : compound) : rule_union a b = rule_union b a.
Proof.
  unfold rule_union. f_equal; apply (comm_L (∪)).
Qed.

Lemma rule_union_assoc (a b c : compound) :
  rule_union (rule_union a b) c = rule_union a (rule_union b c).
Proof.
  unfold rule_union. simpl. f_equal; symmetry; apply (assoc_L (∪)).
Qed.

Lemma rule_union_init (a : compound) : rule_union compound___init__ a = a.
Proof.
  destruct a. unfold rule_union. simpl. f_equal; apply (left_id_L ∅ (∪)).
Qed.

Section Store.

Variables (h : gmap Ref compound) (copy : Ref).
Hypothesis copy_new : h !! copy = None.

Lemma lookup_beside_copy (c : compound) (src : Ref) (s : compound) :
  h !! src = Some s -> <[copy := c]> h !! src = Some s.
Proof.
  intros Hs. rewrite <- Hs. apply lookup_insert_ne. congruence.
Qed.

Lemma update_fails_copy (c : compound) (src : Ref) (s : compound) :
  h !! src = Some s ->
  update_fails copy src (<[copy := c]> h)
  = Some (<[copy := {| fails := fails c ∪ fails s; skips := skips c;
                       tags := tags c |}]> h).
Proof.
  intros Hs. unfold update_fails.
  rewrite (lookup_beside_copy c src s Hs). simpl.
  rewrite lookup_insert_eq. simpl. by rewrite insert_insert_eq.
Qed.

Lemma update_skips_copy (c : compound) (src : Ref) (s : compound) :
  h !! src = Some s ->
  update_skips copy src (<[copy := c]> h)
  = Some (<[copy := {| fails := fails c; skips := skips c ∪ skips s;
                       tags := tags c |}]> h).
Proof.
  intros Hs. unfold update_skips.
  rewrite (lookup_beside_copy c src s Hs). simpl.
  rewrite lookup_insert_eq. simpl. by rewrite insert_insert_eq.
Qed.

Lemma update_tags_copy (c : compound) (src : Ref) (s : compound) :
  h !! src = Some s ->
  update_tags copy src (<[copy := c]> h)
  = Some (<[copy := {| fails := fails c; skips := skips c;
                       tags := tags c ∪ tags s |}]> h).
Proof.
  intros Hs. unfold update_tags.
  rewrite (lookup_beside_copy c src s Hs). simpl.
  rewrite lookup_insert_eq. simpl. by rewrite insert_insert_eq.
Qed.

(** The three updates of [copy] from an existing rule. *)
Lemma update_from (c : compound) (src : Ref) (s : compound) :
  h !! src = Some s ->
  (h1 ← update_fails copy src (<[copy := c]> h);
   h2 ← update_skips copy src h1;
   update_tags copy src h2)
  = Some (<[copy := rule_union c s]> h).
Proof.
  intros Hs. rewrite (update_fails_copy c src s Hs). simpl.
  rewrite (update_skips_copy _ src s Hs). simpl.
  by rewrite (update_tags_copy _ src s Hs).
Qed.

Lemma add_loop_unions (others : list Ref) (cs : list compound) (c : compound) :
  Forall2 (fun r s => h !! r = Some s) others cs ->
  add_loop copy others (<[copy := c]> h)
  = Some (<[copy := foldl rule_union c cs]> h).
Proof.
  intros H. revert c. induction H as [|r s others cs Hr _ IH]; intros c.
  - done.
  - simpl add_loop.
    pose proof (update_from c r s Hr) as Hu.
    destruct (update_fails copy r (<[copy:=c]> h)) as [h1|]; [|done].
    simpl in *. destruct (update_skips copy r h1) as [h2|]; [|done].
    simpl in *. rewrite Hu. simpl. apply IH.
Qed.

End Store.

Lemma add_unions (h : gmap Ref compound) (self : Ref) (others : list Ref)
    (c : compound) (cs : list compound) :
  h !! self = Some c ->
  Forall2 (fun r s => h !! r = Some s) others cs ->
  add self others h
  = Some (fresh (dom h), <[fresh (dom h) := foldl rule_union c cs]> h).
Proof.
  intros Hself Hothers. unfold add, new_compound.
  assert (h !! fresh (dom h) = None) as Hnew.
  { apply not_elem_of_dom, is_fresh. }
  pose proof (update_from h _ Hnew compound___init__ self c Hself) as Hu.
  destruct (update_fails _ self _) as [h1|]; [|done].
  simpl in *. destruct (update_skips _ self h1) as [h2|]; [|done].
  simpl in *. rewrite Hu. simpl.
  rewrite (add_loop_unions h _ Hnew others cs) by done. simpl.
  by rewrite rule_union_init.
Qed.

(** C6. [a.add(b)] is a new rule whose fail, skip and tag sets are the
    unions of those of [a] and [b]; the store is otherwise as it was, so
    neither operand has changed. The fields of [a.add(b)] and of
    [b.add(a)] are the same, and so are those of [(a.add(b)).add(c)] and
    of [a.add(b.add(c))]. *)
Theorem add_is_union :
  ∀ (h : gmap Ref compound) (a b c : Ref) (ca cb cc : compound),
    h !! a = Some ca -> h !! b = Some cb -> h !! c = Some cc ->
    (∃ r h',
        add a [b] h = Some (r, h')
        ∧ h !! r = None
        ∧ h' !! r = Some {| fails := fails ca ∪ fails cb;
                            skips := skips ca ∪ skips cb;
                            tags := tags ca ∪ tags cb |}
        ∧ h' !! a = Some ca ∧ h' !! b = Some cb
        ∧ ∀ l, l ≠ r -> h' !! l = h !! l)
    ∧ (∃ r1 h1 r2 h2,
          add a [b] h = Some (r1, h1) ∧ add b [a] h = Some (r2, h2)
          ∧ h1 !! r1 = h2 !! r2)
    ∧ (∃ ab h1 r1 h2 bc h1' r2 h2',
          add a [b] h = Some (ab, h1) ∧ add ab [c] h1 = Some (r1, h2)
          ∧ add b [c] h = Some (bc, h1') ∧ add a [bc] h1' = Some (r2, h2')
          ∧ h2 !! r1 = h2' !! r2).
Proof.
  intros h a b c ca cb cc Ha Hb Hc.
  assert (∀ (g : gmap Ref compound) x y cx cy,
             g !! x = Some cx -> g !! y = Some cy ->
             add x [y] g
             = Some (fresh (dom g), <[fresh (dom g) := rule_union cx cy]> g))
    as Hadd.
  { intros g x y cx cy Hx Hy. apply (add_unions g x [y] cx [cy]); [done|].
    by repeat constructor. }
  assert (∀ g : gmap Ref compound, g !! fresh (dom g) = None) as Hnew.
  { intros g. apply not_elem_of_dom, is_fresh. }
  assert (∀ (g : gmap Ref compound) x cx v,
             g !! x = Some cx -> <[fresh (dom g) := v]> g !! x = Some cx) as Hold.
  { intros g x cx v Hx. rewrite lookup_insert_ne; [done|].
    intros Heq. rewrite <- Heq, Hnew in Hx. done. }
  split; [|split].
  - exists (fresh (dom h)), (<[fresh (dom h) := rule_union ca cb]> h).
    split; [by apply Hadd|]. split; [apply Hnew|].
    split; [by rewrite lookup_insert_eq|].
    split; [by apply Hold|]. split; [by apply Hold|].
    intros l Hl. by rewrite lookup_insert_ne.
  - eexists _, _, _, _. split; [by apply Hadd|]. split; [by apply Hadd|].
    by rewrite !lookup_insert_eq, rule_union_comm.
  - eexists _, _, _, _, _, _, _, _.
    split; [by apply Hadd|].
    split; [apply Hadd; [apply lookup_insert_eq | by apply Hold]|].
    split; [by apply Hadd|].
    split; [apply Hadd; [by apply Hold | apply lookup_insert_eq]|].
    by rewrite !lookup_insert_eq, rule_union_assoc.
Qed.

Lemma add_is_union_witness :
  ∃ r1 h1 r2 h2,
    add 1%positive [2%positive] sample_store = Some (r1, h1)
    ∧ add 2%positive [1%positive] sample_store = Some (r2, h2)
    ∧ h1 !! r1 = h2 !! r2.
Proof.
  refine (proj1 (proj2 (add_is_union sample_store 1%positive 2%positive 3%positive
                          _ _ _ _ _ _))); vm_compute; reflexivity.
Defined.

(** ** The enforcement wrapper *)

Lemma raise__same {A : Type} (ex : PyExc) :
  raise_ (A := A) ex (exc_traceback ex) = Raise ex.
Proof. by destruct ex. Qed.

Lemma iterates_singleton (set_iter : gset PredId -> list PredId) (i : PredId) :
  iterates set_iter -> set_iter {[ i ]} = [i].
Proof.
  intros H. apply Permutation_singleton_r. by rewrite (H {[ i ]}), elements_singleton.
Qed.

Lemma iterates_empty (set_iter : gset PredId -> list PredId) :
  iterates set_iter -> set_iter ∅ = [].
Proof.
  intros H. apply Permutation_nil_r. by rewrite (H ∅), elements_empty.
Qed.

Section Wrapper.

Variable str_mod : string -> DescriptionArgs -> PyResult string.
Variable deref : PredId -> Predicate.
Variable set_iter : gset PredId -> list PredId.
Variable test_name : string.
Variable cfg : option Config.

Lemma quiet_set (s : gset PredId) :
  iterates set_iter ->
  (∀ i, i ∈ s -> call (deref i) cfg = Return false) -> quiet deref cfg (set_iter s).
Proof.
  intros Hiter H. apply list.Forall_forall. intros i Hi.
  by apply H, (iterates_elem_of set_iter).
Qed.

(** Among predicates that all evaluate, one of which matches, there is a
    first match. *)
Lemma first_match (l : list PredId) :
  Forall (fun i => ∃ b, call (deref i) cfg = Return b) l ->
  Exists (fun i => call (deref i) cfg = Return true) l ->
  ∃ l1 i l2, l = l1 ++ i :: l2 ∧ quiet deref cfg l1 ∧ call (deref i) cfg = Return true.
Proof.
  induction 1 as [|j l [b Hb] _ IH]; intros Hex; [by inversion Hex|].
  destruct b.
  - exists [], j, l. repeat split; [constructor | done].
  - destruct IH as (l1 & i & l2 & -> & Hq & Hi).
    { inversion Hex as [? ? Hj | ]; subst; [congruence | done]. }
    exists (j :: l1), i, l2. repeat split; [by constructor | done].
Qed.

Lemma skip_loop_quiet (l : list PredId) :
  quiet deref cfg l -> skip_loop str_mod deref test_name l cfg = Return ().
Proof.
  unfold quiet. induction 1 as [|i l Hi _ IH]; simpl; [done|]. by rewrite Hi.
Qed.

Lemma skip_loop_first (l1 l2 : list PredId) (i : PredId) (s : string) :
  quiet deref cfg l1 -> call (deref i) cfg = Return true ->
  _as_string str_mod (deref i) cfg false = Return s ->
  skip_loop str_mod deref test_name (l1 ++ i :: l2) cfg
  = Raise (SkipTest ("'" +:+ test_name +:+ "' : " +:+ s)).
Proof.
  intros Hq Hi Hs. induction Hq as [|j l1 Hj _ IH]; simpl.
  - by rewrite Hi, Hs.
  - by rewrite Hj.
Qed.

Lemma expect_failure_loop_quiet (l : list PredId) (ex : PyExc)
    (tb : list string) (name_ : string) (w : World) :
  quiet deref cfg l ->
  expect_failure_loop str_mod deref l cfg ex tb name_ w = (raise_ ex tb, w).
Proof.
  unfold quiet. induction 1 as [|i l Hi _ IH]; simpl; [done|]. by rewrite Hi.
Qed.

Lemma all_descriptions_each (l : list PredId) (ss : list string) :
  Forall2 (fun i s => _as_string str_mod (deref i) cfg false = Return s) l ss ->
  all_descriptions str_mod deref l cfg = Return ss.
Proof.
  induction 1 as [|i s l ss Hs _ IH]; simpl; [done|]. by rewrite Hs, IH.
Qed.

Lemma expect_success_loop_quiet (l all_fails : list PredId) (name_ : string) :
  quiet deref cfg l ->
  expect_success_loop str_mod deref l all_fails cfg name_ = Return ().
Proof.
  unfold quiet. induction 1 as [|i l Hi _ IH]; simpl; [done|]. by rewrite Hi.
Qed.

Lemma expect_success_loop_first (l1 l2 all_fails : list PredId) (i : PredId)
    (ss : list string) (name_ : string) :
  quiet deref cfg l1 -> call (deref i) cfg = Return true ->
  all_descriptions str_mod deref all_fails cfg = Return ss ->
  expect_success_loop str_mod deref (l1 ++ i :: l2) all_fails cfg name_
  = Raise (AssertionError ("Unexpected success for '" +:+ name_ +:+ "' ("
                           +:+ str_join " and " ss +:+ ")")).
Proof.
  intros Hq Hi Hs. induction Hq as [|j l1 Hj _ IH]; simpl.
  - by rewrite Hi, Hs.
  - by rewrite Hj.
Qed.

Lemma _expect_success_quiet (self : compound) (name_ : string) :
  quiet deref cfg (set_iter (fails self)) ->
  _expect_success str_mod deref set_iter self cfg name_ = Return ().
Proof.
  intros Hq. unfold _expect_success.
  destruct (negb (set_bool (fails self))); [done|].
  by apply expect_success_loop_quiet.
Qed.

Lemma _expect_success_match (self : compound) (name_ : string) (ss : list string) :
  iterates set_iter ->
  (∀ i, i ∈ fails self -> ∃ b, call (deref i) cfg = Return b) ->
  (∃ i, i ∈ fails self ∧ call (deref i) cfg = Return true) ->
  Forall2 (fun i s => _as_string str_mod (deref i) cfg false = Return s)
          (set_iter (fails self)) ss ->
  _expect_success str_mod deref set_iter self cfg name_
  = Raise (AssertionError ("Unexpected success for '" +:+ name_ +:+ "' ("
                           +:+ str_join " and " ss +:+ ")")).
Proof.
  intros Hiter Hall (i & Hi & Hcall) Hss. unfold _expect_success.
  assert (set_bool (fails self) = true) as ->.
  { apply set_bool_true. intros Heq. rewrite Heq in Hi.
    by apply not_elem_of_empty in Hi. }
  simpl.
  destruct (first_match (set_iter (fails self))) as (l1 & j & l2 & Heq & Hq & Hj).
  { apply list.Forall_forall. intros k Hk.
    by apply Hall, (iterates_elem_of set_iter). }
  { apply list.Exists_exists. exists i. split; [|done].
    by apply (iterates_elem_of set_iter). }
  rewrite Heq at 1.
  by apply expect_success_loop_first; [..|apply all_descriptions_each].
Qed.

End Wrapper.

(** C8. The skip predicates are evaluated before the body is entered. If
    one of them matches, the first that does in the iteration ends the
    call with the skip signal, whose reason is the name of the current
    test followed by the description of that predicate, and the body is
    not entered: the world is left as it was, whatever the body. A rule
    whose skips contain a constant-true predicate is skipped, and when
    that predicate is its only skip the reason carries its description. *)
Theorem _do_skips_before_body :
  ∀ (str_mod : string -> DescriptionArgs -> PyResult string)
    (deref : PredId -> Predicate) (set_iter : gset PredId -> list PredId)
    (test_name : string) (R : Type) (self : compound) (cfg : option Config)
    (fn : TestFn R) (w : World),
    (∀ l1 i l2 s,
        set_iter (skips self) = l1 ++ i :: l2 ->
        Forall (fun j => call (deref j) cfg = Return false) l1 ->
        call (deref i) cfg = Return true ->
        _as_string str_mod (deref i) cfg false = Return s ->
        _do str_mod deref set_iter test_name self cfg fn w
        = (Raise (SkipTest ("'" +:+ test_name +:+ "' : " +:+ s)), w))
    ∧ (iterates set_iter ->
       (∀ j, j ∈ skips self -> ∃ b, call (deref j) cfg = Return b) ->
       (∀ j, j ∈ skips self ->
             ∃ s, _as_string str_mod (deref j) cfg false = Return s) ->
       ∀ k d, k ∈ skips self -> deref k = BooleanPredicate true d ->
         ∃ i s, i ∈ skips self ∧ call (deref i) cfg = Return true
                ∧ _as_string str_mod (deref i) cfg false = Return s
                ∧ _do str_mod deref set_iter test_name self cfg fn w
                  = (Raise (SkipTest ("'" +:+ test_name +:+ "' : " +:+ s)), w))
    ∧ (iterates set_iter ->
       ∀ k d s, skips self = {[ k ]} -> deref k = BooleanPredicate true d ->
         _as_string str_mod (BooleanPredicate true d) cfg false = Return s ->
         _do str_mod deref set_iter test_name self cfg fn w
         = (Raise (SkipTest ("'" +:+ test_name +:+ "' : " +:+ s)), w)).
Proof.
  intros str_mod deref set_iter test_name R self cfg fn w.
  assert (∀ l1 i l2 s,
        set_iter (skips self) = l1 ++ i :: l2 ->
        Forall (fun j => call (deref j) cfg = Return false) l1 ->
        call (deref i) cfg = Return true ->
        _as_string str_mod (deref i) cfg false = Return s ->
        _do str_mod deref set_iter test_name self cfg fn w
        = (Raise (SkipTest ("'" +:+ test_name +:+ "' : " +:+ s)), w)) as Hfirst.
  { intros l1 i l2 s Heq Hq Hi Hs. unfold _do.
    by rewrite Heq, (skip_loop_first str_mod deref test_name cfg l1 l2 i s). }
  split; [done|]. split.
  - intros Hiter Hall Hdesc k d Hk Hd.
    destruct (first_match deref cfg (set_iter (skips self)))
      as (l1 & i & l2 & Heq & Hq & Hi).
    { apply list.Forall_forall. intros j Hj.
      by apply Hall, (iterates_elem_of set_iter). }
    { apply list.Exists_exists. exists k. split.
      - by apply (iterates_elem_of set_iter).
      - by rewrite Hd. }
    assert (i ∈ skips self) as Hin.
    { apply (iterates_elem_of set_iter _ _ Hiter). rewrite Heq.
      apply elem_of_app. right. apply elem_of_cons. by left. }
    destruct (Hdesc i Hin) as [s Hs].
    exists i, s. repeat split; try done. by apply (Hfirst l1 i l2 s).
  - intros Hiter k d s Hk Hd Hs.
    apply (Hfirst [] k [] s).
    + by rewrite Hk, iterates_singleton.
    + constructor.
    + by rewrite Hd.
    + by rewrite Hd.
Qed.

Lemma _do_skips_before_body_witness :
  _do sample_str_mod sample_objects elements "test_x"
      {| fails := ∅; skips := {[ 3%positive ]}; tags := ∅ |}
      (sample_config "postgres" "psycopg2" [9; 1; 0]%Z) sample_raising sample_world
  = (Raise (SkipTest ("'" +:+ "test_x" +:+ "' : " +:+ "marked as skip")),
     sample_world).
Proof.
  apply (proj2 (proj2 (_do_skips_before_body sample_str_mod sample_objects elements
           "test_x" Z _ (sample_config "postgres" "psycopg2" [9; 1; 0]%Z)
           sample_raising sample_world))
           iterates_elements 3%positive "marked as skip" "marked as skip");
    reflexivity.
Defined.

(** C4. When the body raises and no fail predicate matches, the wrapper
    raises the exception it caught, the same object with its message and
    its traceback, and prints nothing. For a rule whose only fail
    predicate is for backend sqlite, under backend postgres, the
    exception of the body comes out as it was raised. *)
Theorem _do_reraises_unexpected_failure :
  ∀ (str_mod : string -> DescriptionArgs -> PyResult string)
    (deref : PredId -> Predicate) (set_iter : gset PredId -> list PredId)
    (test_name : string) (R : Type) (self : compound) (cfg : option Config)
    (fn : TestFn R) (w w' : World) (ex : PyExc),
    iterates set_iter ->
    ((∀ i, i ∈ fails self -> call (deref i) cfg = Return false) ->
     ∀ name_,
       _expect_failure str_mod deref set_iter self cfg ex (exc_traceback ex)
         name_ w
       = (Raise ex, w))
    ∧ ((∀ i, i ∈ skips self -> call (deref i) cfg = Return false) ->
       (∀ i, i ∈ fails self -> call (deref i) cfg = Return false) ->
       invoke fn w = (Raise ex, w') ->
       _do str_mod deref set_iter test_name self cfg fn w = (Raise ex, w'))
    ∧ (∀ i op_ spec_ description engine,
         skips self = ∅ -> fails self = {[ i ]} ->
         deref i = SpecPredicate "sqlite" op_ spec_ description ->
         cfg = Some {| db := engine |} -> name engine = "postgres" ->
         invoke fn w = (Raise ex, w') ->
         _do str_mod deref set_iter test_name self cfg fn w = (Raise ex, w')).
Proof.
  intros str_mod deref set_iter test_name R self cfg fn w w' ex Hiter.
  assert (∀ w0 name_,
             (∀ i, i ∈ fails self -> call (deref i) cfg = Return false) ->
             _expect_failure str_mod deref set_iter self cfg ex
               (exc_traceback ex) name_ w0 = (Raise ex, w0)) as Hfail.
  { intros w0 name_ Hq. unfold _expect_failure.
    rewrite expect_failure_loop_quiet by by apply quiet_set.
    by rewrite raise__same. }
  assert ((∀ i, i ∈ skips self -> call (deref i) cfg = Return false) ->
          (∀ i, i ∈ fails self -> call (deref i) cfg = Return false) ->
          invoke fn w = (Raise ex, w') ->
          _do str_mod deref set_iter test_name self cfg fn w = (Raise ex, w'))
    as Hdo.
  { intros Hs Hf Hinv. unfold _do.
    rewrite skip_loop_quiet by by apply quiet_set.
    rewrite Hinv. destruct (exc_is_Exception ex); [|done].
    by rewrite Hfail. }
  split; [|split].
  - intros Hq name_. by apply Hfail.
  - done.
  - intros i op_ spec_ description engine Hs Hf Hi -> Hname Hinv.
    apply Hdo; [| |done].
    + intros j. rewrite Hs. by intros ?%not_elem_of_empty.
    + intros j. rewrite Hf. intros ->%elem_of_singleton. rewrite Hi.
      apply spec_call_other_backend; [done..|]. by rewrite Hname.
Qed.

Lemma _do_reraises_unexpected_failure_witness :
  _do sample_str_mod sample_objects elements "test_x"
      {| fails := {[ 1%positive ]}; skips := ∅; tags := ∅ |}
      (sample_config "postgres" "psycopg2" [9; 1; 0]%Z) sample_raising sample_world
  = (Raise sample_ValueError_x, {| stdout := []; invocations := 1 |}).
Proof.
  apply (proj2 (proj2 (_do_reraises_unexpected_failure sample_str_mod
           sample_objects elements "test_x" Z _ _ sample_raising sample_world _
           sample_ValueError_x iterates_elements))
           1%positive None VNone None (sample_engine "postgres" "psycopg2" [9; 1; 0]%Z));
    reflexivity.
Defined.

(** C2, as the spec has it, fails: of two fail predicates only the one
    for sqlite matches, and the message of the failure raised names the
    one for postgres as well; it is not the message made of the matching
    description alone. *)
Lemma _do_unexpected_success_names_all_fails :
  call (sample_objects 1%positive) (sample_config "sqlite" "pysqlite" [3; 39]%Z)
  = Return true
  ∧ call (sample_objects 2%positive) (sample_config "sqlite" "pysqlite" [3; 39]%Z)
    = Return false
  ∧ _as_string sample_str_mod (sample_objects 2%positive)
      (sample_config "sqlite" "pysqlite" [3; 39]%Z) false = Return "postgres"
  ∧ _do sample_str_mod sample_objects elements "test_x"
        {| fails := {[ 1%positive; 2%positive ]}; skips := ∅; tags := ∅ |}
        (sample_config "sqlite" "pysqlite" [3; 39]%Z) sample_passing sample_world
    = (Raise (AssertionError
                "Unexpected success for 'test_x' (postgres and sqlite)"),
       {| stdout := []; invocations := 1 |})
  ∧ "Unexpected success for 'test_x' (postgres and sqlite)"
    ≠ "Unexpected success for 'test_x' (sqlite)".
Proof. repeat split; try (vm_compute; reflexivity). discriminate. Qed.

(** C2 (amended). When the body returns and no skip predicate matched:
    if a fail predicate matches, the wrapper raises a new
    [AssertionError] whose message names the descriptions of all the
    fail predicates of the rule, matching or not, in the order of
    iteration, joined by and; if none matches, the value the body
    returned is passed through. *)
Theorem _do_unexpected_success :
  ∀ (str_mod : string -> DescriptionArgs -> PyResult string)
    (deref : PredId -> Predicate) (set_iter : gset PredId -> list PredId)
    (test_name : string) (R : Type) (self : compound) (cfg : option Config)
    (fn : TestFn R) (w w' : World) (return_value : R),
    iterates set_iter ->
    (∀ i, i ∈ skips self -> call (deref i) cfg = Return false) ->
    invoke fn w = (Return return_value, w') ->
    (∀ ss,
        (∀ i, i ∈ fails self -> ∃ b, call (deref i) cfg = Return b) ->
        (∃ i, i ∈ fails self ∧ call (deref i) cfg = Return true) ->
        Forall2 (fun i s => _as_string str_mod (deref i) cfg false = Return s)
                (set_iter (fails self)) ss ->
        _do str_mod deref set_iter test_name self cfg fn w
        = (Raise (AssertionError ("Unexpected success for '" +:+ fn_name fn
                                  +:+ "' (" +:+ str_join " and " ss +:+ ")")),
           w'))
    ∧ ((∀ i, i ∈ fails self -> call (deref i) cfg = Return false) ->
       _do str_mod deref set_iter test_name self cfg fn w
       = (Return (Some return_value), w')).
Proof.
  intros str_mod deref set_iter test_name R self cfg fn w w' return_value
    Hiter Hskips Hinv.
  split.
  - intros ss Hall Hex Hss. unfold _do.
    rewrite skip_loop_quiet by by apply quiet_set.
    rewrite Hinv.
    by rewrite (_expect_success_match str_mod deref set_iter cfg self
                  (fn_name fn) ss).
  - intros Hq. unfold _do.
    rewrite skip_loop_quiet by by apply quiet_set.
    rewrite Hinv.
    rewrite _expect_success_quiet; [done|]. by apply quiet_set.
Qed.

Lemma _do_unexpected_success_witness :
  _do sample_str_mod sample_objects elements "test_x"
      {| fails := {[ 1%positive; 3%positive ]}; skips := ∅; tags := ∅ |}
      (sample_config "postgres" "psycopg2" [9; 1; 0]%Z) sample_passing sample_world
  = (Raise (AssertionError ("Unexpected success for '" +:+ "test_x" +:+ "' ("
              +:+ str_join " and " ["marked as skip"; "sqlite"] +:+ ")")),
     {| stdout := []; invocations := 1 |}).
Proof.
  apply (proj1 (_do_unexpected_success sample_str_mod sample_objects elements
           "test_x" Z {| fails := {[ 1%positive; 3%positive ]}; skips := ∅;
                         tags := ∅ |}
           (sample_config "postgres" "psycopg2" [9; 1; 0]%Z)
           sample_passing sample_world _ 7%Z iterates_elements
           ltac:(intros i Hi; by apply not_elem_of_empty in Hi) eq_refl)).
  - intros i [->%elem_of_singleton | ->%elem_of_singleton]%elem_of_union;
      eexists; reflexivity.
  - exists 3%positive. split; [|reflexivity].
    apply elem_of_union. right. by apply elem_of_singleton.
  - vm_compute. repeat constructor.
Defined.

(** ** Builders and empty descriptor lists *)

(** C9, as the spec has it, fails: [db_spec] with no descriptor and
    [only_on] with the empty list both return, the first an empty
    disjunction and the second a rule. *)
Lemma db_spec_accepts_no_descriptor :
  db_spec elements sample_re_match sample_table [] = Return (OrPredicate [] None)
  ∧ only_on elements sample_re_match sample_to_list (DList []) None sample_table
    = Return ({| fails := ∅; skips := {[ 4%positive ]}; tags := ∅ |},
              {| next_id := 5%positive;
                 obj := <[4%positive := NotPredicate (OrPredicate [] None) None]>
                          sample_objects |}).
Proof. split; reflexivity. Qed.

(** C9 (amended). Of the builders that take a list of descriptors, only
    the evaluator [against] refuses the empty list, with an
    [AssertionError] when it is called. [db_spec] with no descriptor
    builds the empty disjunction, which matches no context; [only_on]
    with an empty list builds a rule whose one skip predicate is the
    negation of the empty disjunction, which matches every context; and
    [fails_on_everything_except] with no descriptor builds the rule that
    has it as its one fail predicate. *)
Theorem empty_descriptor_lists :
  ∀ (set_iter : gset PredId -> list PredId)
    (re_match : string -> option (string * option string * option string))
    (to_list : Descriptor -> list Descriptor) (o : Objects),
    (∀ config,
        against set_iter re_match o config []
        = Raise (AssertionError "no queries sent!"))
    ∧ db_spec set_iter re_match o [] = Return (OrPredicate [] None)
    ∧ (∀ config, call (OrPredicate [] None) config = Return false)
    ∧ (∀ dbs reason,
         to_list dbs = [] ->
         only_on set_iter re_match to_list dbs reason o
         = Return ({| fails := ∅; skips := {[ next_id o ]}; tags := ∅ |},
                   snd (alloc (NotPredicate (OrPredicate [] None) None) o)))
    ∧ fails_on_everything_except set_iter re_match [] o
      = Return ({| fails := {[ next_id o ]}; skips := ∅; tags := ∅ |},
                snd (alloc (NotPredicate (OrPredicate [] None) None) o))
    ∧ (∀ config,
         call (NotPredicate (OrPredicate [] None) None) config = Return true).
Proof.
  intros set_iter re_match to_list o. repeat split.
  intros dbs reason Hempty. unfold only_on. by rewrite Hempty.
Qed.

Lemma empty_descriptor_lists_witness :
  only_on elements sample_re_match sample_to_list (DList []) (Some "only here")
    sample_table
  = Return ({| fails := ∅; skips := {[ next_id sample_table ]}; tags := ∅ |},
            snd (alloc (NotPredicate (OrPredicate [] None) None) sample_table)).
Proof.
  exact (proj1 (proj2 (proj2 (proj2
           (empty_descriptor_lists elements sample_re_match sample_to_list
              sample_table))))
           (DList []) (Some "only here") eq_refl).
Defined.

(** * Further properties of the engine *)

(** ** Operators of a version spec *)

Lemma py_eq_int_tuple (xs ys : list Z) :
  py_eq (int_tuple_val xs) (int_tuple_val ys) = true ↔ xs = ys.
Proof.
  unfold int_tuple_val. revert ys.
  induction xs as [|x xs IH]; intros [|y ys]; simpl; try done.
  change ((x =? y)%Z && py_eq (VTuple (VInt <$> xs)) (VTuple (VInt <$> ys)) = true
          ↔ x :: xs = y :: ys).
  rewrite andb_true_iff, Z.eqb_eq, IH. split; [by intros [-> ->]|].
  by inversion 1.
Qed.

Lemma py_eq_int (z : Z) (v : PyVal) : py_eq (VInt z) v = true ↔ v = VInt z.
Proof.
  destruct v; simpl; try done. rewrite Z.eqb_eq. split; congruence.
Qed.

Lemma existsb_py_eq_int (xs : list Z) (v : PyVal) :
  existsb (fun x => py_eq x v) (VInt <$> xs) = true ↔ ∃ z, v = VInt z ∧ z ∈ xs.
Proof.
  induction xs as [|x xs IH].
  - split; [done|]. intros (z & _ & Hz). by apply elem_of_nil in Hz.
  - rewrite fmap_cons. cbn [existsb].
    rewrite orb_true_iff, IH, py_eq_int. split.
    + intros [-> | (z & -> & Hz)]; eexists; split; try done.
      * apply elem_of_cons. by left.
      * apply elem_of_cons. by right.
    + intros (z & -> & [-> | Hz]%elem_of_cons); [by left|].
      right. by exists z.
Qed.

Lemma _server_version_tuple (engine : Engine) (xs : list Z) :
  server_version_info engine = Some (int_tuple_val xs) ->
  _server_version engine = int_tuple_val xs.
Proof. unfold _server_version. by intros ->. Qed.

Lemma spec_call_key (engine : Engine) (db_ key : string)
    (oper : PyVal -> PyVal -> PyResult bool) (spec_ : PyVal)
    (description : option string) :
  str_contains "+" db_ = false -> db_ = "" ∨ name engine = db_ ->
  _ops key = Some oper ->
  call (SpecPredicate db_ (Some (OpKey key)) spec_ description)
       (Some {| db := engine |})
  = oper (_server_version engine) spec_.
Proof.
  intros Hp Hname Hkey. rewrite spec_call_backend by done. by rewrite Hkey.
Qed.

Lemma between_pair (val lo hi : PyVal) :
  between val (VTuple [lo; hi])
  = (b ← py_order Ge val lo; if b : bool then py_order Le val hi else Return false).
Proof. reflexivity. Qed.

Lemma between_single (val lo : PyVal) :
  between val (VTuple [lo])
  = (b ← py_order Ge val lo;
     if b : bool then Raise (IndexError "tuple index out of range")
     else Return false).
Proof. reflexivity. Qed.

(** X1. On its own backend, a spec with the operator between and a pair
    of version tuples matches exactly the versions from the first to the
    second, both included, in lexicographic order. The pair is not
    checked: with a pair of one tuple, a version below it gives false and
    any other version raises [IndexError]. *)
Theorem between_inclusive_range :
  ∀ (engine : Engine) (db_ : string) (description : option string)
    (xs lo hi : list Z),
    str_contains "+" db_ = false -> db_ = "" ∨ name engine = db_ ->
    server_version_info engine = Some (int_tuple_val xs) ->
    (∃ b, call (SpecPredicate db_ (Some (OpKey "between"))
                  (VTuple [int_tuple_val lo; int_tuple_val hi]) description)
               (Some {| db := engine |}) = Return b
          ∧ (b = true ↔ ¬ lex_lt xs lo ∧ ¬ lex_lt hi xs))
    ∧ (lex_lt xs lo ->
       call (SpecPredicate db_ (Some (OpKey "between"))
               (VTuple [int_tuple_val lo]) description)
            (Some {| db := engine |}) = Return false)
    ∧ (¬ lex_lt xs lo ->
       call (SpecPredicate db_ (Some (OpKey "between"))
               (VTuple [int_tuple_val lo]) description)
            (Some {| db := engine |})
       = Raise (IndexError "tuple index out of range")).
Proof.
  intros engine db_ description xs lo hi Hp Hname Hv.
  rewrite !(spec_call_key engine db_ "between" between) by done.
  rewrite (_server_version_tuple _ _ Hv), between_pair, between_single.
  destruct (py_order_lex Ge xs lo) as (b1 & Hb1 & Hiff1).
  destruct (py_order_lex Le xs hi) as (b2 & Hb2 & Hiff2).
  simpl in Hiff1, Hiff2. rewrite Hb1.
  change (Return b1 ≫= ?f) with (f b1). cbv beta.
  split; [|split].
  - destruct b1.
    + rewrite Hb2. exists b2. split; [done|]. rewrite Hiff2. intuition.
    + exists false. split; [done|]. intuition congruence.
  - intros Hlt. destruct b1; [|done]. exfalso. by apply Hiff1.
  - intros Hge. destruct b1; [done|].
    apply Hiff1 in Hge. done.
Qed.

Lemma between_inclusive_range_witness :
  ∃ b, call (SpecPredicate "pg" (Some (OpKey "between"))
               (VTuple [int_tuple_val [9; 0]%Z; int_tuple_val [10; 0]%Z]) None)
            (sample_config "pg" "psycopg2" [9; 1; 0]%Z) = Return b
       ∧ (b = true ↔ ¬ lex_lt [9; 1; 0]%Z [9; 0]%Z ∧ ¬ lex_lt [10; 0]%Z [9; 1; 0]%Z).
Proof.
  exact (proj1 (between_inclusive_range (sample_engine "pg" "psycopg2" [9; 1; 0]%Z)
                  "pg" None [9; 1; 0]%Z [9; 0]%Z [10; 0]%Z
                  eq_refl (or_intror eq_refl) eq_refl)).
Defined.

(** X2. On its own backend, a spec with the operator in tests whether the
    spec is one of the components of the version tuple of the context:
    it matches exactly when the spec is an integer that occurs in the
    version, so a spec that is itself a version tuple never matches. *)
Theorem in_tests_version_components :
  ∀ (engine : Engine) (db_ : string) (description : option string)
    (xs : list Z) (spec_ : PyVal),
    str_contains "+" db_ = false -> db_ = "" ∨ name engine = db_ ->
    server_version_info engine = Some (int_tuple_val xs) ->
    (∃ b, call (SpecPredicate db_ (Some (OpKey "in")) spec_ description)
               (Some {| db := engine |}) = Return b
          ∧ (b = true ↔ ∃ z, spec_ = VInt z ∧ z ∈ xs))
    ∧ ∀ ys, call (SpecPredicate db_ (Some (OpKey "in")) (int_tuple_val ys)
                    description) (Some {| db := engine |}) = Return false.
Proof.
  intros engine db_ description xs spec_ Hp Hname Hv.
  assert (∀ v, call (SpecPredicate db_ (Some (OpKey "in")) v description)
                    (Some {| db := engine |})
               = Return (existsb (fun x => py_eq x v) (VInt <$> xs))) as Hcall.
  { intros v. rewrite (spec_call_key engine db_ "in" operator_contains) by done.
    by rewrite (_server_version_tuple _ _ Hv). }
  split.
  - eexists. split; [apply Hcall|]. apply existsb_py_eq_int.
  - intros ys. rewrite Hcall. f_equal. apply not_true_is_false.
    rewrite existsb_py_eq_int. by intros (z & Hz & _).
Qed.

Lemma in_tests_version_components_witness :
  ∃ b, call (SpecPredicate "pg" (Some (OpKey "in")) (VInt 9) None)
            (sample_config "pg" "psycopg2" [9; 1; 0]%Z) = Return b
       ∧ (b = true ↔ ∃ z, VInt 9 = VInt z ∧ z ∈ [9; 1; 0]%Z).
Proof.
  exact (proj1 (in_tests_version_components
                  (sample_engine "pg" "psycopg2" [9; 1; 0]%Z) "pg" None
                  [9; 1; 0]%Z (VInt 9) eq_refl (or_intror eq_refl) eq_refl)).
Defined.

(** X3. On its own backend, the operators [==] and [!=] never raise: with
    a version tuple as spec, [==] matches exactly the equal version and
    [!=] every other; with no spec, [==] never matches and [!=] always
    does. *)
Theorem eq_ne_never_raise :
  ∀ (engine : Engine) (db_ : string) (description : option string)
    (xs : list Z),
    str_contains "+" db_ = false -> db_ = "" ∨ name engine = db_ ->
    server_version_info engine = Some (int_tuple_val xs) ->
    (∀ ys, call (SpecPredicate db_ (Some (OpKey "==")) (int_tuple_val ys)
                   description) (Some {| db := engine |})
           = Return (bool_decide (xs = ys)))
    ∧ (∀ ys, call (SpecPredicate db_ (Some (OpKey "!=")) (int_tuple_val ys)
                     description) (Some {| db := engine |})
             = Return (bool_decide (xs ≠ ys)))
    ∧ call (SpecPredicate db_ (Some (OpKey "==")) VNone description)
           (Some {| db := engine |}) = Return false
    ∧ call (SpecPredicate db_ (Some (OpKey "!=")) VNone description)
           (Some {| db := engine |}) = Return true.
Proof.
  intros engine db_ description xs Hp Hname Hv.
  assert (∀ ys, py_eq (int_tuple_val xs) (int_tuple_val ys)
                = bool_decide (xs = ys)) as Heq.
  { intros ys. apply eq_true_iff_eq.
    by rewrite py_eq_int_tuple, bool_decide_eq_true. }
  assert (∀ v, call (SpecPredicate db_ (Some (OpKey "==")) v description)
                    (Some {| db := engine |})
               = Return (py_eq (int_tuple_val xs) v)) as Hcall_eq.
  { intros v. rewrite (spec_call_key engine db_ "==" operator_eq) by done.
    by rewrite (_server_version_tuple _ _ Hv). }
  assert (∀ v, call (SpecPredicate db_ (Some (OpKey "!=")) v description)
                    (Some {| db := engine |})
               = Return (negb (py_eq (int_tuple_val xs) v))) as Hcall_ne.
  { intros v. rewrite (spec_call_key engine db_ "!=" operator_ne) by done.
    by rewrite (_server_version_tuple _ _ Hv). }
  split; [|split; [|split]].
  - intros ys. by rewrite Hcall_eq, Heq.
  - intros ys. rewrite Hcall_ne, Heq. f_equal.
    destruct (decide (xs = ys)) as [->|Hne].
    + rewrite bool_decide_eq_true_2 by done. by rewrite bool_decide_eq_false_2 by auto.
    + rewrite bool_decide_eq_false_2 by done. by rewrite bool_decide_eq_true_2.
  - by rewrite Hcall_eq.
  - by rewrite Hcall_ne.
Qed.

Lemma eq_ne_never_raise_witness :
  call (SpecPredicate "pg" (Some (OpKey "!=")) VNone None)
       (sample_config "pg" "psycopg2" [9; 1; 0]%Z) = Return true.
Proof.
  exact (proj2 (proj2 (proj2 (eq_ne_never_raise
           (sample_engine "pg" "psycopg2" [9; 1; 0]%Z) "pg" None [9; 1; 0]%Z
           eq_refl (or_intror eq_refl) eq_refl)))).
Defined.




Lemma str_split_length (c : ascii) (s : string) :
  length (str_split c s) = S (str_count c s).
Proof.
  induction s as [|a s IH]; simpl; [done|].
  destruct (Ascii.eqb a c); simpl; [by rewrite IH|].
  destruct (str_split c s) as [|piece rest]; simpl in *; lia.
Qed.

Lemma str_contains_count (c : ascii) (s : string) :
  0 < str_count c s -> str_contains c s = true.
Proof.
  induction s as [|a s IH]; simpl; [lia|].
  destruct (Ascii.eqb a c); simpl; [done|]. apply IH.
Qed.

(** X5. A backend string with two or more plus signs cannot be taken
    apart into dialect and driver: the evaluation against any present
    context raises [ValueError], whatever the backend of the context, the
    operator and the spec; against an absent context it still returns
    false. *)
Theorem two_plus_signs_raise :
  ∀ (db_ : string) (op_ : option Op) (spec_ : PyVal)
    (description : option string),
    2 <= str_count "+" db_ ->
    call (SpecPredicate db_ op_ spec_ description) None = Return false
    ∧ ∀ engine : Engine,
        call (SpecPredicate db_ op_ spec_ description) (Some {| db := engine |})
        = Raise (ValueError "too many values to unpack (expected 2)").
Proof.
  intros db_ op_ spec_ description Hcount. split; [done|]. intros engine.
  simpl. unfold dialect_driver.
  rewrite str_contains_count by lia.
  pose proof (str_split_length "+" db_) as Hlen.
  destruct (str_split "+" db_) as [|p1 [|p2 [|p3 rest]]]; simpl in Hlen;
    try lia; done.
Qed.

Lemma two_plus_signs_raise_witness :
  call (SpecPredicate "pg+psycopg2+ssl" None VNone None)
       (sample_config "pg" "psycopg2" [9; 1; 0]%Z)
  = Raise (ValueError "too many values to unpack (expected 2)").
Proof.
  apply (proj2 (two_plus_signs_raise "pg+psycopg2+ssl" None VNone None
                  ltac:(vm_compute; lia))).
Defined.

(** ** Disjunction and negation *)

Lemma call_Or_cons (p : Predicate) (ps : list Predicate)
    (description : option string) (cfg : option Config) :
  call (OrPredicate (p :: ps) description) cfg
  = (b ← call p cfg;
     if b : bool then Return true else call (OrPredicate ps description) cfg).
Proof. reflexivity. Qed.

Lemma call_Or_all_false (ps : list Predicate) (description : option string)
    (cfg : option Config) :
  Forall (fun p => call p cfg = Return false) ps ->
  call (OrPredicate ps description) cfg = Return false.
Proof.
  induction 1 as [|p ps Hp _ IH]; [done|].
  by rewrite call_Or_cons, Hp.
Qed.

Lemma call_Or_first (l1 l2 : list Predicate) (p : Predicate)
    (description : option string) (cfg : option Config) (r : PyResult bool) :
  Forall (fun q => call q cfg = Return false) l1 ->
  call p cfg = r -> r ≠ Return false ->
  call (OrPredicate (l1 ++ p :: l2) description) cfg
  = match r with Return _ => Return true | Raise e => Raise e end.
Proof.
  intros Hq Hp Hr. induction Hq as [|q l1 Hq' _ IH].
  - simpl app. rewrite call_Or_cons, Hp. by destruct r as [[]|].
  - change ((q :: l1) ++ p :: l2) with (q :: (l1 ++ p :: l2)).
    by rewrite call_Or_cons, Hq'.
Qed.

Lemma call_Or_evaluates (ps : list Predicate) (description : option string)
    (cfg : option Config) :
  Forall (fun p => ∃ b, call p cfg = Return b) ps ->
  ∃ b, call (OrPredicate ps description) cfg = Return b
       ∧ (b = true ↔ Exists (fun p => call p cfg = Return true) ps).
Proof.
  induction 1 as [|p ps [b Hb] _ (b' & Hb' & Hiff)].
  - exists false. split; [done|]. split; [done|]. by inversion 1.
  - rewrite call_Or_cons, Hb. destruct b.
    + exists true. split; [done|]. split; [|done]. intros _. by left.
    + exists b'. split; [done|]. rewrite Hiff. split.
      * intros H. by right.
      * inversion 1; subst; [congruence | done].
Qed.

(** X6. A disjunction evaluates its members in order and stops at the
    first that matches or raises: it is true at the first match, whatever
    the members after it would do; it raises what the first raising
    member raises when none before it matched; it is false when every
    member is false. When all members evaluate, it is true exactly when
    one of them is, and its negation is true exactly when all of them are
    false. *)
Theorem OrPredicate_stops_at_first_match :
  ∀ (ps : list Predicate) (description description' : option string)
    (cfg : option Config),
    (∀ l1 p l2, ps = l1 ++ p :: l2 ->
       Forall (fun q => call q cfg = Return false) l1 ->
       call p cfg = Return true ->
       call (OrPredicate ps description) cfg = Return true)
    ∧ (∀ l1 p l2 e, ps = l1 ++ p :: l2 ->
         Forall (fun q => call q cfg = Return false) l1 ->
         call p cfg = Raise e ->
         call (OrPredicate ps description) cfg = Raise e)
    ∧ (Forall (fun p => call p cfg = Return false) ps ->
       call (OrPredicate ps description) cfg = Return false)
    ∧ (Forall (fun p => ∃ b, call p cfg = Return b) ps ->
       (∃ b, call (OrPredicate ps description) cfg = Return b
             ∧ (b = true ↔ Exists (fun p => call p cfg = Return true) ps))
       ∧ (∃ b, call (NotPredicate (OrPredicate ps description) description') cfg
               = Return b
               ∧ (b = true ↔ Forall (fun p => call p cfg = Return false) ps))).
Proof.
  intros ps description description' cfg. split; [|split; [|split]].
  - intros l1 p l2 -> Hq Hp.
    by rewrite (call_Or_first l1 l2 p description cfg (Return true)).
  - intros l1 p l2 e -> Hq Hp.
    by rewrite (call_Or_first l1 l2 p description cfg (Raise e)).
  - apply call_Or_all_false.
  - intros Hall. destruct (call_Or_evaluates ps description cfg Hall)
      as (b & Hb & Hiff).
    split; [by exists b|]. exists (negb b). split.
    + change (call (NotPredicate (OrPredicate ps description) description') cfg)
        with (b0 ← call (OrPredicate ps description) cfg; Return (negb b0)).
      by rewrite Hb.
    + rewrite negb_true_iff. split.
      * intros Hfalse. apply list.Forall_forall. intros p Hp.
        destruct (proj1 (list.Forall_forall _ _) Hall p Hp) as [[] Hbp]; [|done].
        assert (b = true) as Hbt; [|congruence].
        apply Hiff, list.Exists_exists. by exists p.
      * intros Hq. destruct b; [|done].
        apply proj1 in Hiff. specialize (Hiff eq_refl).
        apply list.Exists_exists in Hiff as (p & Hp & Hpt).
        apply (proj1 (list.Forall_forall _ _) Hq) in Hp. congruence.
Qed.

Lemma OrPredicate_stops_at_first_match_witness :
  call (OrPredicate [SpecPredicate "sqlite" None VNone None;
                     SpecPredicate "pg" None VNone None;
                     SpecPredicate "a+b+c" None VNone None] None)
       (sample_config "pg" "psycopg2" [9; 1; 0]%Z) = Return true.
Proof.
  apply (proj1 (OrPredicate_stops_at_first_match _ None None _)
           [SpecPredicate "sqlite" None VNone None]
           (SpecPredicate "pg" None VNone None)
           [SpecPredicate "a+b+c" None VNone None]);
    [reflexivity | by repeat constructor | reflexivity].
Defined.

Lemma _as_string_each (str_mod : string -> DescriptionArgs -> PyResult string)
    (cfg : option Config) (negate : bool) (ps : list Predicate)
    (ss : list string) :
  Forall2 (fun p s => _as_string str_mod p cfg negate = Return s) ps ss ->
  (fix each (preds : list Predicate) : PyResult (list string) :=
     match preds with
     | [] => Return []
     | p :: rest =>
         s ← _as_string str_mod p cfg negate;
         ss ← each rest;
         Return (s :: ss)
     end) ps = Return ss.
Proof.
  induction 1 as [|p s ps ss Hs _ IH]; [done|]. by rewrite Hs, IH.
Qed.

Lemma _as_string_Or (str_mod : string -> DescriptionArgs -> PyResult string)
    (cfg : option Config) (negate : bool) (ps : list Predicate)
    (ss : list string) :
  Forall2 (fun p s => _as_string str_mod p cfg negate = Return s) ps ss ->
  _as_string str_mod (OrPredicate ps None) cfg negate
  = Return (str_join (if negate then " and " else " or ") ss).
Proof.
  intros H. apply _as_string_each in H.
  destruct negate; simpl; by rewrite H.
Qed.

(** X7. A disjunction without a description of its own is described by
    the descriptions of its members joined by or; asked for its negated
    form, and so under a negation, it is described by the negated forms
    of its members joined by and. For members that are plain backend
    names the negated form reads not a and not b and so on. *)
Theorem OrPredicate_description_De_Morgan :
  ∀ (str_mod : string -> DescriptionArgs -> PyResult string)
    (cfg : option Config) (ps : list Predicate),
    (∀ ss,
        Forall2 (fun p s => _as_string str_mod p cfg false = Return s) ps ss ->
        _as_string str_mod (OrPredicate ps None) cfg false
        = Return (str_join " or " ss))
    ∧ (∀ ss,
         Forall2 (fun p s => _as_string str_mod p cfg true = Return s) ps ss ->
         _as_string str_mod (OrPredicate ps None) cfg true
         = Return (str_join " and " ss)
         ∧ _as_string str_mod (NotPredicate (OrPredicate ps None) None) cfg false
           = Return (str_join " and " ss))
    ∧ (∀ dbs,
         ps = (fun d => SpecPredicate d None VNone None) <$> dbs ->
         _as_string str_mod (NotPredicate (OrPredicate ps None) None) cfg false
         = Return (str_join " and " ((fun d => "not " +:+ d) <$> dbs))).
Proof.
  intros str_mod cfg ps. split; [|split].
  - intros ss H. by apply (_as_string_Or str_mod cfg false).
  - intros ss H. split; by apply (_as_string_Or str_mod cfg true).
  - intros dbs ->.
    apply (_as_string_Or str_mod cfg true).
    induction dbs as [|d dbs IH]; constructor; done.
Qed.

Lemma OrPredicate_description_De_Morgan_witness :
  _as_string sample_str_mod
    (NotPredicate (OrPredicate ((fun d => SpecPredicate d None VNone None)
                                  <$> ["sqlite"; "mysql"]) None) None)
    (sample_config "pg" "psycopg2" [9; 1; 0]%Z) false
  = Return (str_join " and " ((fun d => "not " +:+ d) <$> ["sqlite"; "mysql"])).
Proof.
  exact (proj2 (proj2 (OrPredicate_description_De_Morgan sample_str_mod
                         (sample_config "pg" "psycopg2" [9; 1; 0]%Z) _))
               ["sqlite"; "mysql"] eq_refl).
Defined.

(** X8. A description rendered in the negated form does not follow the
    value of its predicate: the words given to it are always those of a
    predicate that does not hold. So a negation that has a description of
    its own, as [only_if] and [succeeds_if] make with a reason, is
    described with the same words whether the predicate inside holds or
    not, and a negated boolean predicate is described the same for true
    and for false; in the plain form the words follow the value. *)
Theorem negated_description_ignores_value :
  ∀ (str_mod : string -> DescriptionArgs -> PyResult string)
    (cfg : option Config),
    let words (holds : bool) :=
      {| arg_driver := match cfg with
                       | Some c => get_driver_name (db c)
                       | None => "<no driver>"
                       end;
         arg_database := match cfg with
                         | Some c => get_backend_name (db c)
                         | None => "<no database>"
                         end;
         arg_doesnt_support :=
           if holds then "doesn't support" else "does support";
         arg_does_support :=
           if holds then "does support" else "doesn't support" |} in
    (∀ p reason b,
        str_bool reason = true -> call p cfg = Return b ->
        _as_string str_mod (NotPredicate p (Some reason)) cfg false
        = str_mod reason (words false))
    ∧ (∀ value description,
         _as_string str_mod (NotPredicate (BooleanPredicate value description) None)
           cfg false
         = str_mod description (words false)
         ∧ _as_string str_mod (BooleanPredicate value description) cfg false
           = str_mod description (words value)).
Proof.
  intros str_mod cfg words. split.
  - intros p reason b Hreason Hb.
    change (_as_string str_mod (NotPredicate p (Some reason)) cfg false)
      with (if str_bool reason
            then _format_description str_mod (NotPredicate p (Some reason)) cfg true
            else _as_string str_mod p cfg true).
    rewrite Hreason. unfold _format_description.
    change (call (NotPredicate p (Some reason)) cfg)
      with (b0 ← call p cfg; Return (negb b0)).
    by rewrite Hb.
  - intros value description. split; by destruct value.
Qed.

Lemma negated_description_ignores_value_witness :
  _as_string sample_str_mod
    (NotPredicate (SpecPredicate "pg" None VNone None)
       (Some "%(database)s %(does_support)s sequences"))
    (sample_config "pg" "psycopg2" [9; 1; 0]%Z) false
  = sample_str_mod "%(database)s %(does_support)s sequences"
      {| arg_driver := "psycopg2"; arg_database := "pg";
         arg_doesnt_support := "does support";
         arg_does_support := "doesn't support" |}.
Proof.
  exact (proj1 (negated_description_ignores_value sample_str_mod
                  (sample_config "pg" "psycopg2" [9; 1; 0]%Z))
               (SpecPredicate "pg" None VNone None)
               "%(database)s %(does_support)s sequences" true eq_refl eq_refl).
Defined.

(** ** Rules: enabled, reasons, composition *)

Section Enabled.

Variable str_mod : string -> DescriptionArgs -> PyResult string.
Variable deref : PredId -> Predicate.
Variable set_iter : gset PredId -> list PredId.
Variable cfg : option Config.

Lemma enabled_loop_evaluates (l : list PredId) :
  Forall (fun i => ∃ b, call (deref i) cfg = Return b) l ->
  ∃ b, enabled_loop deref l cfg = Return b ∧ (b = true ↔ quiet deref cfg l).
Proof.
  unfold quiet. induction 1 as [|i l [b Hb] _ (b' & Hb' & Hiff)].
  - exists true. by split.
  - simpl. rewrite Hb. destruct b.
    + exists false. split; [done|]. split; [done|].
      inversion 1; subst; congruence.
    + exists b'. split; [done|]. rewrite Hiff. split.
      * by constructor.
      * by inversion 1.
Qed.

Lemma reasons_loop_evaluates (l : list PredId) :
  Forall (fun i => ∃ b, call (deref i) cfg = Return b) l ->
  Forall (fun i => matches deref cfg i = true ->
                   ∃ s, _as_string str_mod (deref i) cfg false = Return s) l ->
  ∃ ss, reasons_loop str_mod deref l cfg = Return ss
        ∧ Forall2 (fun i s => _as_string str_mod (deref i) cfg false = Return s)
                  (filter (fun i => matches deref cfg i = true) l) ss.
Proof.
  induction 1 as [|i l [b Hb] _ IH]; intros Hr.
  - exists []. split; [done|]. constructor.
  - inversion Hr as [|? ? Hi Hr']; subst.
    destruct (IH Hr') as (ss & Hss & Hall). simpl reasons_loop. rewrite Hb.
    destruct b.
    + destruct Hi as [s Hs]; [unfold matches; by rewrite Hb|].
      exists (s :: ss). rewrite Hs, Hss. split; [done|].
      rewrite filter_cons_True by (unfold matches; by rewrite Hb).
      by constructor.
    + exists ss. split; [done|].
      rewrite filter_cons_False; [done|]. unfold matches. by rewrite Hb.
Qed.

Lemma quiet_filter_nil (l : list PredId) :
  Forall (fun i => ∃ b, call (deref i) cfg = Return b) l ->
  quiet deref cfg l ↔ filter (fun i => matches deref cfg i = true) l = [].
Proof.
  unfold quiet. induction 1 as [|i l [b Hb] _ IH].
  - split; [done | constructor].
  - destruct b.
    + rewrite filter_cons_True by (unfold matches; by rewrite Hb).
      split; [|done]. inversion 1; subst; congruence.
    + rewrite filter_cons_False by (unfold matches; by rewrite Hb).
      rewrite <- IH. split; [by inversion 1 | by constructor].
Qed.

End Enabled.

(** X9. When every skip and fail predicate of a rule evaluates,
    [enabled_for_config] returns true exactly when none of them matches
    the context; fail predicates disable a rule as skip predicates do. *)
Theorem enabled_iff_nothing_matches :
  ∀ (deref : PredId -> Predicate) (set_iter : gset PredId -> list PredId)
    (self : compound) (cfg : option Config),
    iterates set_iter ->
    (∀ i, i ∈ skips self ∪ fails self -> ∃ b, call (deref i) cfg = Return b) ->
    ∃ b, enabled_for_config deref set_iter self cfg = Return b
         ∧ (b = true
            ↔ ∀ i, i ∈ skips self ∨ i ∈ fails self ->
                   call (deref i) cfg = Return false).
Proof.
  intros deref set_iter self cfg Hiter Hall.
  destruct (enabled_loop_evaluates deref cfg (set_iter (skips self ∪ fails self)))
    as (b & Hb & Hiff).
  { apply list.Forall_forall. intros i Hi.
    by apply Hall, (iterates_elem_of set_iter). }
  exists b. split; [done|]. rewrite Hiff. unfold quiet.
  rewrite list.Forall_forall. split.
  - intros H i Hi. apply H, (iterates_elem_of set_iter); [done|].
    by apply elem_of_union.
  - intros H i Hi. apply H, elem_of_union.
    by apply (iterates_elem_of set_iter) in Hi.
Qed.

Lemma enabled_iff_nothing_matches_witness :
  ∃ b, enabled_for_config sample_objects elements sample_rule
         (sample_config "pg" "psycopg2" [9; 1; 0]%Z) = Return b
       ∧ (b = true
          ↔ ∀ i, i ∈ skips sample_rule ∨ i ∈ fails sample_rule ->
                 call (sample_objects i) (sample_config "pg" "psycopg2" [9; 1; 0]%Z)
                 = Return false).
Proof.
  apply (enabled_iff_nothing_matches sample_objects elements sample_rule
           (sample_config "pg" "psycopg2" [9; 1; 0]%Z) iterates_elements).
  intros i Hi. unfold sample_rule in Hi. simpl in Hi.
  apply elem_of_union in Hi as [->%elem_of_singleton | ->%elem_of_singleton];
    eexists; reflexivity.
Defined.

(** X10. When every skip and fail predicate of a rule evaluates and the
    matching ones have a description that renders,
    [matching_config_reasons] returns the descriptions of exactly the
    matching predicates, in the order of iteration; the list is empty
    exactly when [enabled_for_config] returns true. *)
Theorem reasons_are_the_matching_descriptions :
  ∀ (str_mod : string -> DescriptionArgs -> PyResult string)
    (deref : PredId -> Predicate) (set_iter : gset PredId -> list PredId)
    (self : compound) (cfg : option Config),
    iterates set_iter ->
    (∀ i, i ∈ skips self ∪ fails self -> ∃ b, call (deref i) cfg = Return b) ->
    (∀ i, i ∈ skips self ∪ fails self -> call (deref i) cfg = Return true ->
          ∃ s, _as_string str_mod (deref i) cfg false = Return s) ->
    ∃ ss b,
      matching_config_reasons str_mod deref set_iter self cfg = Return ss
      ∧ Forall2 (fun i s => _as_string str_mod (deref i) cfg false = Return s)
                (filter (fun i => matches deref cfg i = true)
                        (set_iter (skips self ∪ fails self))) ss
      ∧ enabled_for_config deref set_iter self cfg = Return b
      ∧ (b = true ↔ ss = []).
Proof.
  intros str_mod deref set_iter self cfg Hiter Hall Hdesc.
  assert (Forall (fun i => ∃ b, call (deref i) cfg = Return b)
                 (set_iter (skips self ∪ fails self))) as Hev.
  { apply list.Forall_forall. intros i Hi.
    by apply Hall, (iterates_elem_of set_iter). }
  destruct (reasons_loop_evaluates str_mod deref cfg _ Hev) as (ss & Hss & Hf2).
  { apply list.Forall_forall. intros i Hi Hm.
    apply Hdesc; [by apply (iterates_elem_of set_iter) in Hi|].
    unfold matches in Hm. by destruct (call (deref i) cfg) as [[]|]. }
  destruct (enabled_loop_evaluates deref cfg _ Hev) as (b & Hb & Hiff).
  exists ss, b. repeat split; try done.
  - intros Hbt. apply Hiff, (quiet_filter_nil deref cfg _ Hev) in Hbt.
    rewrite Hbt in Hf2. by inversion Hf2.
  - intros ->. apply Hiff, (quiet_filter_nil deref cfg _ Hev).
    by inversion Hf2.
Qed.

Lemma reasons_are_the_matching_descriptions_witness :
  ∃ ss b,
    matching_config_reasons sample_str_mod sample_objects elements sample_rule
      (sample_config "sqlite" "pysqlite" [3; 39]%Z) = Return ss
    ∧ Forall2 (fun i s => _as_string sample_str_mod (sample_objects i)
                            (sample_config "sqlite" "pysqlite" [3; 39]%Z) false
                          = Return s)
              (filter (fun i => matches sample_objects
                                  (sample_config "sqlite" "pysqlite" [3; 39]%Z) i
                                = true)
                      (elements (skips sample_rule ∪ fails sample_rule)))
              ss
    ∧ enabled_for_config sample_objects elements sample_rule
        (sample_config "sqlite" "pysqlite" [3; 39]%Z) = Return b
    ∧ (b = true ↔ ss = []).
Proof.
  apply (reasons_are_the_matching_descriptions sample_str_mod sample_objects
           elements sample_rule
           (sample_config "sqlite" "pysqlite" [3; 39]%Z) iterates_elements).
  - intros i Hi. unfold sample_rule in Hi. simpl in Hi.
    apply elem_of_union in Hi as [->%elem_of_singleton | ->%elem_of_singleton];
      eexists; reflexivity.
  - intros i Hi _. unfold sample_rule in Hi. simpl in Hi.
    apply elem_of_union in Hi as [->%elem_of_singleton | ->%elem_of_singleton];
      eexists; reflexivity.
Defined.

Lemma enabled_set_iff (deref : PredId -> Predicate)
    (set_iter : gset PredId -> list PredId) (self : compound)
    (cfg : option Config) :
  iterates set_iter ->
  (∀ i, i ∈ skips self ∪ fails self -> ∃ b, call (deref i) cfg = Return b) ->
  ∃ b, enabled_for_config deref set_iter self cfg = Return b
       ∧ (b = true
          ↔ ∀ i, i ∈ skips self ∪ fails self -> call (deref i) cfg = Return false).
Proof.
  intros Hiter Hall.
  destruct (enabled_loop_evaluates deref cfg (set_iter (skips self ∪ fails self)))
    as (b & Hb & Hiff).
  { apply list.Forall_forall. intros i Hi.
    by apply Hall, (iterates_elem_of set_iter). }
  exists b. split; [done|]. rewrite Hiff. unfold quiet.
  rewrite list.Forall_forall. split.
  - intros H i Hi. by apply H, (iterates_elem_of set_iter).
  - intros H i Hi. apply H. by apply (iterates_elem_of set_iter) in Hi.
Qed.

Lemma add_pair (h : gmap Ref compound) (a b : Ref) (ca cb : compound) :
  h !! a = Some ca -> h !! b = Some cb ->
  add a [b] h = Some (fresh (dom h), <[fresh (dom h) := rule_union ca cb]> h).
Proof.
  intros Ha Hb. apply (add_unions h a [b] ca [cb]); [done|].
  by repeat constructor.
Qed.

(** X11. A rule made by [a.add(b)] is enabled for a context exactly when
    both [a] and [b] are: when the predicates of both evaluate,
    [enabled_for_config] of the sum is the conjunction of those of the
    operands. *)
Theorem enabled_of_add_is_conjunction :
  ∀ (deref : PredId -> Predicate) (set_iter : gset PredId -> list PredId)
    (h : gmap Ref compound) (a b : Ref) (ca cb : compound)
    (cfg : option Config),
    iterates set_iter ->
    h !! a = Some ca -> h !! b = Some cb ->
    (∀ i, i ∈ skips ca ∪ fails ca -> ∃ v, call (deref i) cfg = Return v) ->
    (∀ i, i ∈ skips cb ∪ fails cb -> ∃ v, call (deref i) cfg = Return v) ->
    ∃ r h' c ea eb,
      add a [b] h = Some (r, h') ∧ h' !! r = Some c
      ∧ enabled_for_config deref set_iter ca cfg = Return ea
      ∧ enabled_for_config deref set_iter cb cfg = Return eb
      ∧ enabled_for_config deref set_iter c cfg = Return (ea && eb).
Proof.
  intros deref set_iter h a b ca cb cfg Hiter Ha Hb Hea Heb.
  destruct (enabled_set_iff deref set_iter ca cfg Hiter Hea) as (ea & Hca & Hia).
  destruct (enabled_set_iff deref set_iter cb cfg Hiter Heb) as (eb & Hcb & Hib).
  destruct (enabled_set_iff deref set_iter (rule_union ca cb) cfg Hiter)
    as (ec & Hcc & Hic).
  { simpl. intros i Hi.
    destruct (decide (i ∈ skips ca ∪ fails ca)) as [Hin|Hout]; [by apply Hea|].
    apply Heb. set_solver. }
  exists (fresh (dom h)), (<[fresh (dom h) := rule_union ca cb]> h),
    (rule_union ca cb), ea, eb.
  split; [by apply add_pair|]. split; [by rewrite lookup_insert_eq|].
  split; [done|]. split; [done|]. rewrite Hcc. f_equal.
  apply eq_true_iff_eq. rewrite Hic, andb_true_iff, Hia, Hib. simpl.
  split.
  - intros H. split; intros i Hi; apply H; set_solver.
  - intros [H1 H2] i Hi.
    destruct (decide (i ∈ skips ca ∪ fails ca)) as [Hin|Hout]; [by apply H1|].
    apply H2. set_solver.
Qed.

Lemma enabled_of_add_is_conjunction_witness :
  ∃ r h' c ea eb,
    add 1%positive [2%positive] sample_store = Some (r, h') ∧ h' !! r = Some c
    ∧ enabled_for_config sample_objects elements
        {| fails := {[ 1%positive ]}; skips := ∅; tags := {[ "fast" ]} |}
        (sample_config "pg" "psycopg2" [9; 1; 0]%Z) = Return ea
    ∧ enabled_for_config sample_objects elements
        {| fails := ∅; skips := {[ 2%positive ]}; tags := {[ "slow" ]} |}
        (sample_config "pg" "psycopg2" [9; 1; 0]%Z) = Return eb
    ∧ enabled_for_config sample_objects elements c
        (sample_config "pg" "psycopg2" [9; 1; 0]%Z) = Return (ea && eb).
Proof.
  apply (enabled_of_add_is_conjunction sample_objects elements sample_store
           1%positive 2%positive
           {| fails := {[ 1%positive ]}; skips := ∅; tags := {[ "fast" ]} |}
           {| fails := ∅; skips := {[ 2%positive ]}; tags := {[ "slow" ]} |}
           (sample_config "pg" "psycopg2" [9; 1; 0]%Z) iterates_elements).
  - vm_compute. reflexivity.
  - vm_compute. reflexivity.
  - intros i Hi. simpl in Hi.
    apply elem_of_union in Hi as [Hi%not_elem_of_empty | ->%elem_of_singleton];
      [done|]. eexists; reflexivity.
  - intros i Hi. simpl in Hi.
    apply elem_of_union in Hi as [->%elem_of_singleton | Hi%not_elem_of_empty];
      [|done]. eexists; reflexivity.
Defined.

(** ** Rules in the store: [as_skips], [_extend], decoration *)

Lemma update_skips_from_fails_copy (h : gmap Ref compound) (copy src : Ref)
    (c s : compound) :
  h !! copy = None -> h !! src = Some s ->
  update_skips_from_fails copy src (<[copy := c]> h)
  = Some (<[copy := {| fails := fails c; skips := skips c ∪ fails s;
                       tags := tags c |}]> h).
Proof.
  intros Hnew Hs. unfold update_skips_from_fails.
  rewrite (lookup_beside_copy h copy Hnew c src s Hs). simpl.
  rewrite lookup_insert_eq. simpl. by rewrite insert_insert_eq.
Qed.

Lemma as_skips_result (h : gmap Ref compound) (self : Ref) (c : compound) :
  h !! self = Some c ->
  as_skips self h
  = Some (fresh (dom h),
          <[fresh (dom h) := {| fails := ∅; skips := skips c ∪ fails c;
                                tags := tags c |}]> h).
Proof.
  intros Hself. unfold as_skips, new_compound.
  assert (h !! fresh (dom h) = None) as Hnew.
  { apply not_elem_of_dom, is_fresh. }
  rewrite (update_skips_copy h _ Hnew _ self c Hself). simpl.
  rewrite (update_skips_from_fails_copy h _ self _ c Hnew Hself). simpl.
  rewrite (update_tags_copy h _ Hnew _ self c Hself). simpl.
  repeat f_equal; [apply (left_id_L ∅ (∪)) | apply (left_id_L ∅ (∪))].
Qed.

(** X12. [as_skips] makes a new rule that has no fail predicate, whose
    skips are the skips and the fails of the rule it is called on, with
    the same tags; the rule it is called on is not changed. The new rule
    is enabled for exactly the contexts the old one is, and applying
    [as_skips] to it again changes no field. *)
Theorem as_skips_folds_fails_into_skips :
  ∀ (deref : PredId -> Predicate) (set_iter : gset PredId -> list PredId)
    (h : gmap Ref compound) (self : Ref) (c : compound),
    h !! self = Some c ->
    ∃ r h' c',
      as_skips self h = Some (r, h') ∧ h !! r = None ∧ h' !! r = Some c'
      ∧ fails c' = ∅ ∧ skips c' = skips c ∪ fails c ∧ tags c' = tags c
      ∧ (∀ l, l ≠ r -> h' !! l = h !! l)
      ∧ (∀ cfg, enabled_for_config deref set_iter c' cfg
                = enabled_for_config deref set_iter c cfg)
      ∧ ∃ r2 h2, as_skips r h' = Some (r2, h2) ∧ h2 !! r2 = Some c'.
Proof.
  intros deref set_iter h self c Hself.
  assert (h !! fresh (dom h) = None) as Hnew.
  { apply not_elem_of_dom, is_fresh. }
  eexists _, _, _. split; [by apply as_skips_result|].
  split; [done|]. split; [apply lookup_insert_eq|].
  split; [done|]. split; [done|]. split; [done|]. split.
  { intros l Hl. by rewrite lookup_insert_ne. }
  split.
  { intros cfg. unfold enabled_for_config. simpl.
    by rewrite (right_id_L ∅ (∪)). }
  eexists _, _. split.
  { apply as_skips_result, lookup_insert_eq. }
  rewrite lookup_insert_eq. simpl. by rewrite (right_id_L ∅ (∪)).
Qed.

Lemma as_skips_folds_fails_into_skips_witness :
  ∃ r h' c',
    as_skips 3%positive sample_store = Some (r, h')
    ∧ sample_store !! r = None ∧ h' !! r = Some c'
    ∧ fails c' = ∅
    ∧ skips c' = skips {| fails := {[ 3%positive ]}; skips := {[ 1%positive ]};
                          tags := ∅ |}
                 ∪ fails {| fails := {[ 3%positive ]}; skips := {[ 1%positive ]};
                            tags := ∅ |}
    ∧ tags c' = tags {| fails := {[ 3%positive ]}; skips := {[ 1%positive ]};
                        tags := ∅ |}
    ∧ (∀ l, l ≠ r -> h' !! l = sample_store !! l)
    ∧ (∀ cfg, enabled_for_config sample_objects elements c' cfg
              = enabled_for_config sample_objects elements
                  {| fails := {[ 3%positive ]}; skips := {[ 1%positive ]};
                     tags := ∅ |} cfg)
    ∧ ∃ r2 h2, as_skips r h' = Some (r2, h2) ∧ h2 !! r2 = Some c'.
Proof.
  apply (as_skips_folds_fails_into_skips sample_objects elements sample_store
           3%positive).
  vm_compute. reflexivity.
Defined.

Lemma _extend_result (h : gmap Ref compound) (a b : Ref) (ca cb : compound) :
  h !! a = Some ca -> h !! b = Some cb ->
  _extend a b h = Some (<[a := rule_union ca cb]> h).
Proof.
  intros Ha Hb. unfold _extend, update_skips, update_fails, update_tags.
  rewrite Hb, Ha. simpl.
  destruct (decide (a = b)) as [<- | Hne].
  - assert (cb = ca) as -> by congruence.
    rewrite !lookup_insert_eq. simpl. rewrite !lookup_insert_eq. simpl.
    by rewrite !insert_insert_eq.
  - rewrite (lookup_insert_ne h a b) by done. rewrite Hb, lookup_insert_eq. simpl.
    rewrite insert_insert_eq.
    rewrite (lookup_insert_ne h a b) by done. rewrite Hb, lookup_insert_eq. simpl.
    by rewrite insert_insert_eq.
Qed.

(** X13. [_extend] changes the rule it is called on in place: afterwards
    its three sets are the unions with those of the other rule, no rule
    has been created, and every other rule of the store is as it was.
    This is where it differs from [add], which leaves both operands
    alone. *)
Theorem _extend_updates_in_place :
  ∀ (h : gmap Ref compound) (self other : Ref) (c c' : compound),
    h !! self = Some c -> h !! other = Some c' ->
    ∃ h',
      _extend self other h = Some h'
      ∧ h' !! self = Some {| fails := fails c ∪ fails c';
                             skips := skips c ∪ skips c';
                             tags := tags c ∪ tags c' |}
      ∧ dom h' = dom h
      ∧ ∀ l, l ≠ self -> h' !! l = h !! l.
Proof.
  intros h self other c c' Hself Hother.
  exists (<[self := rule_union c c']> h).
  split; [by apply _extend_result|]. split; [apply lookup_insert_eq|]. split.
  - rewrite dom_insert_L. apply elem_of_dom_2 in Hself. set_solver.
  - intros l Hl. by rewrite lookup_insert_ne.
Qed.

Lemma _extend_updates_in_place_witness :
  ∃ h',
    _extend 1%positive 2%positive sample_store = Some h'
    ∧ h' !! 1%positive
      = Some {| fails := fails {| fails := {[ 1%positive ]}; skips := ∅;
                                  tags := {[ "fast" ]} |}
                         ∪ fails {| fails := ∅; skips := {[ 2%positive ]};
                                    tags := {[ "slow" ]} |};
                skips := skips {| fails := {[ 1%positive ]}; skips := ∅;
                                  tags := {[ "fast" ]} |}
                         ∪ skips {| fails := ∅; skips := {[ 2%positive ]};
                                    tags := {[ "slow" ]} |};
                tags := tags {| fails := {[ 1%positive ]}; skips := ∅;
                                tags := {[ "fast" ]} |}
                        ∪ tags {| fails := ∅; skips := {[ 2%positive ]};
                                  tags := {[ "slow" ]} |} |}
    ∧ dom h' = dom sample_store
    ∧ ∀ l, l ≠ 1%positive -> h' !! l = sample_store !! l.
Proof.
  apply (_extend_updates_in_place sample_store 1%positive 2%positive);
    vm_compute; reflexivity.
Defined.

(** X14. Decorating a function that already carries a rule does not wrap
    it again: the second rule is merged into the rule the function
    carries, which is changed in place, the function comes back as it
    is, and the second rule is left alone when it is another object. A
    later call of the function enforces the union of the two rules in
    one pass of [_do]. *)
Theorem decorating_twice_extends_first_rule :
  ∀ (str_mod : string -> DescriptionArgs -> PyResult string)
    (deref : PredId -> Predicate) (set_iter : gset PredId -> list PredId)
    (test_name : string) (R : Type) (fn : TestFn R)
    (h : gmap Ref compound) (r1 r2 : Ref) (c1 c2 : compound),
    h !! r1 = Some c1 -> h !! r2 = Some c2 ->
    ∃ f1 f2 h2,
      compound___call__ r1 {| fn_wrapped := fn; _sa_exclusion_extend := None |} h
      = Some (f1, h)
      ∧ compound___call__ r2 f1 h = Some (f2, h2)
      ∧ f2 = f1 ∧ _sa_exclusion_extend f2 = Some r1
      ∧ h2 !! r1 = Some {| fails := fails c1 ∪ fails c2;
                           skips := skips c1 ∪ skips c2;
                           tags := tags c1 ∪ tags c2 |}
      ∧ (r2 ≠ r1 -> h2 !! r2 = Some c2)
      ∧ ∀ cfg w,
          call_PyFn str_mod deref set_iter test_name f2 cfg h2 w
          = Some (_do str_mod deref set_iter test_name
                    {| fails := fails c1 ∪ fails c2;
                       skips := skips c1 ∪ skips c2;
                       tags := tags c1 ∪ tags c2 |} cfg fn w).
Proof.
  intros str_mod deref set_iter test_name R fn h r1 r2 c1 c2 H1 H2.
  exists {| fn_wrapped := fn; _sa_exclusion_extend := Some r1 |},
         {| fn_wrapped := fn; _sa_exclusion_extend := Some r1 |},
         (<[r1 := rule_union c1 c2]> h).
  split; [done|]. split.
  { unfold compound___call__. simpl. by rewrite (_extend_result h r1 r2 c1 c2). }
  split; [done|]. split; [done|]. split; [apply lookup_insert_eq|]. split.
  { intros Hne. by rewrite lookup_insert_ne. }
  intros cfg w. unfold call_PyFn. simpl. by rewrite lookup_insert_eq.
Qed.

Lemma decorating_twice_extends_first_rule_witness :
  ∃ f1 f2 h2,
    compound___call__ 1%positive
      {| fn_wrapped := sample_passing; _sa_exclusion_extend := None |} sample_store
    = Some (f1, sample_store)
    ∧ compound___call__ 2%positive f1 sample_store = Some (f2, h2)
    ∧ f2 = f1 ∧ _sa_exclusion_extend f2 = Some 1%positive
    ∧ h2 !! 1%positive
      = Some {| fails := fails {| fails := {[ 1%positive ]}; skips := ∅;
                                  tags := {[ "fast" ]} |}
                         ∪ fails {| fails := ∅; skips := {[ 2%positive ]};
                                    tags := {[ "slow" ]} |};
                skips := skips {| fails := {[ 1%positive ]}; skips := ∅;
                                  tags := {[ "fast" ]} |}
                         ∪ skips {| fails := ∅; skips := {[ 2%positive ]};
                                    tags := {[ "slow" ]} |};
                tags := tags {| fails := {[ 1%positive ]}; skips := ∅;
                                tags := {[ "fast" ]} |}
                        ∪ tags {| fails := ∅; skips := {[ 2%positive ]};
                                  tags := {[ "slow" ]} |} |}
    ∧ (2%positive ≠ 1%positive ->
       h2 !! 2%positive = Some {| fails := ∅; skips := {[ 2%positive ]};
                                  tags := {[ "slow" ]} |})
    ∧ ∀ cfg w,
        call_PyFn sample_str_mod sample_objects elements "test_x" f2 cfg h2 w
        = Some (_do sample_str_mod sample_objects elements "test_x"
                  {| fails := fails {| fails := {[ 1%positive ]}; skips := ∅;
                                       tags := {[ "fast" ]} |}
                              ∪ fails {| fails := ∅; skips := {[ 2%positive ]};
                                         tags := {[ "slow" ]} |};
                     skips := skips {| fails := {[ 1%positive ]}; skips := ∅;
                                       tags := {[ "fast" ]} |}
                              ∪ skips {| fails := ∅; skips := {[ 2%positive ]};
                                         tags := {[ "slow" ]} |};
                     tags := tags {| fails := {[ 1%positive ]}; skips := ∅;
                                     tags := {[ "fast" ]} |}
                             ∪ tags {| fails := ∅; skips := {[ 2%positive ]};
                                       tags := {[ "slow" ]} |} |}
                  cfg sample_passing w).
Proof.
  apply (decorating_twice_extends_first_rule sample_str_mod sample_objects
           elements "test_x" Z sample_passing sample_store 1%positive 2%positive);
    vm_compute; reflexivity.
Defined.

(** ** Negation of a rule *)

Lemma not_each_spec (l : list PredId) :
  ∀ (o : Objects) (s : gset PredId) (o' : Objects),
    not_each l o = (s, o') ->
    (∀ i, i ∈ l -> (i < next_id o)%positive) ->
    (next_id o ≤ next_id o')%positive
    ∧ (∀ i, (i < next_id o)%positive -> obj o' i = obj o i)
    ∧ (∀ j, j ∈ s ->
         (next_id o ≤ j)%positive ∧ (j < next_id o')%positive
         ∧ ∃ i, i ∈ l ∧ obj o' j = NotPredicate (obj o i) None)
    ∧ (∀ i, i ∈ l -> ∃ j, j ∈ s ∧ obj o' j = NotPredicate (obj o i) None)
    ∧ size s = length l.
Proof.
  induction l as [|p rest IH]; intros o s o' Heq Hold.
  - simpl in Heq. injection Heq as <- <-.
    split; [lia|]. split; [done|]. split.
    { intros j Hj. by apply not_elem_of_empty in Hj. }
    split; [|by rewrite size_empty].
    intros i Hi. by apply elem_of_nil in Hi.
  - simpl in Heq.
    destruct (not_each rest
                {| next_id := Pos.succ (next_id o);
                   obj := <[next_id o := NotPredicate (obj o p) None]> (obj o) |})
      as [s1 o2] eqn:Hrest.
    injection Heq as <- <-.
    destruct (IH _ _ _ Hrest) as (Hle & Hsame & Hnew & Hall & Hsize).
    { simpl. intros i Hi. assert (i < next_id o)%positive; [|lia].
      apply Hold, elem_of_cons. by right. }
    simpl in Hle, Hsame, Hnew, Hall.
    assert (∀ i, (i < next_id o)%positive -> obj o2 i = obj o i) as Hkeep.
    { intros i Hi. rewrite Hsame by lia. apply fn_lookup_insert_ne. lia. }
    assert (obj o2 (next_id o) = NotPredicate (obj o p) None) as Hfirst.
    { rewrite Hsame by lia. apply fn_lookup_insert. }
    assert (∀ i, i ∈ rest ->
                 <[next_id o := NotPredicate (obj o p) None]> (obj o) i = obj o i)
      as Hrest_same.
    { intros i Hi. apply fn_lookup_insert_ne.
      assert (i < next_id o)%positive; [|lia].
      apply Hold, elem_of_cons. by right. }
    split; [lia|]. split; [done|]. split; [|split].
    + intros j [->%elem_of_singleton | Hj]%elem_of_union.
      * split; [lia|]. split; [lia|]. exists p. split; [|done].
        apply elem_of_cons. by left.
      * destruct (Hnew j Hj) as (H1 & H2 & i & Hi & Hobj).
        split; [lia|]. split; [done|]. exists i. split.
        -- apply elem_of_cons. by right.
        -- by rewrite Hobj, Hrest_same.
    + intros i [-> | Hi]%elem_of_cons.
      * exists (next_id o). split; [|done].
        apply elem_of_union. left. by apply elem_of_singleton.
      * destruct (Hall i Hi) as (j & Hj & Hobj). exists j. split.
        -- apply elem_of_union. by right.
        -- by rewrite Hobj, Hrest_same.
    + rewrite size_union, size_singleton; [simpl; lia|].
      intros j ->%elem_of_singleton Hj.
      destruct (Hnew _ Hj) as (H1 & _). lia.
Qed.

Lemma iterates_length (set_iter : gset PredId -> list PredId) (s : gset PredId) :
  iterates set_iter -> length (set_iter s) = size s.
Proof. intros H. by rewrite (H s). Qed.

Lemma not__spec (set_iter : gset PredId -> list PredId) (self : compound)
    (o : Objects) :
  iterates set_iter ->
  (∀ i, i ∈ skips self ∪ fails self -> (i < next_id o)%positive) ->
  ∃ r o',
    not_ set_iter self o = (r, o')
    ∧ tags r = tags self
    ∧ size (fails r) = size (fails self) ∧ size (skips r) = size (skips self)
    ∧ (next_id o ≤ next_id o')%positive
    ∧ (∀ i, (i < next_id o)%positive -> obj o' i = obj o i)
    ∧ (∀ j, j ∈ skips r ∪ fails r ->
            (next_id o ≤ j)%positive ∧ (j < next_id o')%positive)
    ∧ (∀ j, j ∈ fails r ->
            ∃ i, i ∈ fails self ∧ obj o' j = NotPredicate (obj o i) None)
    ∧ (∀ i, i ∈ fails self ->
            ∃ j, j ∈ fails r ∧ obj o' j = NotPredicate (obj o i) None)
    ∧ (∀ j, j ∈ skips r ->
            ∃ i, i ∈ skips self ∧ obj o' j = NotPredicate (obj o i) None)
    ∧ (∀ i, i ∈ skips self ->
            ∃ j, j ∈ skips r ∧ obj o' j = NotPredicate (obj o i) None).
Proof.
  intros Hiter Hold. unfold not_.
  destruct (not_each (set_iter (fails self)) o) as [f o1] eqn:Hf.
  destruct (not_each (set_iter (skips self)) o1) as [s o2] eqn:Hs.
  destruct (not_each_spec _ _ _ _ Hf) as (Hle1 & Hsame1 & Hnew1 & Hall1 & Hsize1).
  { intros i Hi. apply Hold, elem_of_union. right.
    by apply (iterates_elem_of set_iter) in Hi. }
  destruct (not_each_spec _ _ _ _ Hs) as (Hle2 & Hsame2 & Hnew2 & Hall2 & Hsize2).
  { intros i Hi. assert (i < next_id o)%positive; [|lia].
    apply Hold, elem_of_union. left.
    by apply (iterates_elem_of set_iter) in Hi. }
  eexists _, _. split; [done|]. simpl.
  rewrite !(left_id_L ∅ (∪)).
  split; [done|]. split; [by rewrite Hsize1, iterates_length|].
  split; [by rewrite Hsize2, iterates_length|].
  split; [lia|]. split.
  { intros i Hi. rewrite Hsame2 by lia. by apply Hsame1. }
  split.
  { intros j [Hj | Hj]%elem_of_union.
    - destruct (Hnew2 j Hj) as (H1 & H2 & _). lia.
    - destruct (Hnew1 j Hj) as (H1 & H2 & _). lia. }
  split.
  { intros j Hj. destruct (Hnew1 j Hj) as (_ & H2 & i & Hi & Hobj).
    exists i. split; [by apply (iterates_elem_of set_iter) in Hi|].
    by rewrite Hsame2. }
  split.
  { intros i Hi. destruct (Hall1 i) as (j & Hj & Hobj).
    { by apply (iterates_elem_of set_iter). }
    exists j. split; [done|]. destruct (Hnew1 j Hj) as (_ & H2 & _).
    by rewrite Hsame2. }
  split.
  { intros j Hj. destruct (Hnew2 j Hj) as (_ & _ & i & Hi & Hobj).
    apply (iterates_elem_of set_iter) in Hi; [|done].
    exists i. split; [done|]. rewrite Hobj, Hsame1; [done|].
    apply Hold, elem_of_union. by left. }
  intros i Hi. destruct (Hall2 i) as (j & Hj & Hobj).
  { by apply (iterates_elem_of set_iter). }
  exists j. split; [done|]. rewrite Hobj, Hsame1; [done|].
  apply Hold, elem_of_union. by left.
Qed.

Lemma call_Not (p : Predicate) (d : option string) (cfg : option Config) :
  call (NotPredicate p d) cfg = (b ← call p cfg; Return (negb b)).
Proof. reflexivity. Qed.

Lemma call_Not_Not (p : Predicate) (d d' : option string) (cfg : option Config) :
  call (NotPredicate (NotPredicate p d) d') cfg = call p cfg.
Proof.
  rewrite !call_Not. destruct (call p cfg) as [b|e]; simpl; [|done].
  by rewrite negb_involutive.
Qed.

(** X15. [not_] makes a rule with the same tags and as many fail and
    skip predicates as the rule it is called on: each new predicate is a
    new object that evaluates to the opposite of one predicate of the old
    rule, every predicate of the old rule has its opposite in the new
    one, fails staying fails and skips staying skips, and the predicate
    objects that existed are not changed. *)
Theorem not__negates_each_predicate :
  ∀ (set_iter : gset PredId -> list PredId) (self : compound) (o : Objects),
    iterates set_iter ->
    (∀ i, i ∈ skips self ∪ fails self -> (i < next_id o)%positive) ->
    ∃ r o',
      not_ set_iter self o = (r, o')
      ∧ tags r = tags self
      ∧ size (fails r) = size (fails self) ∧ size (skips r) = size (skips self)
      ∧ (∀ i, (i < next_id o)%positive -> obj o' i = obj o i)
      ∧ (∀ j, j ∈ skips r ∪ fails r -> (next_id o ≤ j)%positive)
      ∧ (∀ j, j ∈ fails r ->
           ∃ i, i ∈ fails self
                ∧ ∀ cfg, call (obj o' j) cfg
                         = (b ← call (obj o i) cfg; Return (negb b)))
      ∧ (∀ i, i ∈ fails self ->
           ∃ j, j ∈ fails r
                ∧ ∀ cfg, call (obj o' j) cfg
                         = (b ← call (obj o i) cfg; Return (negb b)))
      ∧ (∀ j, j ∈ skips r ->
           ∃ i, i ∈ skips self
                ∧ ∀ cfg, call (obj o' j) cfg
                         = (b ← call (obj o i) cfg; Return (negb b)))
      ∧ (∀ i, i ∈ skips self ->
           ∃ j, j ∈ skips r
                ∧ ∀ cfg, call (obj o' j) cfg
                         = (b ← call (obj o i) cfg; Return (negb b))).
Proof.
  intros set_iter self o Hiter Hold.
  destruct (not__spec set_iter self o Hiter Hold)
    as (r & o' & Heq & Htags & Hsf & Hss & _ & Hkeep & Hnew & Hf1 & Hf2 & Hs1 & Hs2).
  exists r, o'. split; [done|]. split; [done|]. split; [done|]. split; [done|].
  split; [done|]. split; [intros j Hj; by apply Hnew|].
  split; [|split; [|split]].
  - intros j Hj. destruct (Hf1 j Hj) as (i & Hi & Hobj).
    exists i. split; [done|]. intros cfg. by rewrite Hobj.
  - intros i Hi. destruct (Hf2 i Hi) as (j & Hj & Hobj).
    exists j. split; [done|]. intros cfg. by rewrite Hobj.
  - intros j Hj. destruct (Hs1 j Hj) as (i & Hi & Hobj).
    exists i. split; [done|]. intros cfg. by rewrite Hobj.
  - intros i Hi. destruct (Hs2 i Hi) as (j & Hj & Hobj).
    exists j. split; [done|]. intros cfg. by rewrite Hobj.
Qed.

Lemma sample_rule_allocated :
  ∀ i, i ∈ skips sample_rule ∪ fails sample_rule ->
       (i < next_id sample_table)%positive.
Proof.
  intros i Hi. unfold sample_rule in Hi. simpl in Hi.
  apply elem_of_union in Hi as [->%elem_of_singleton | ->%elem_of_singleton];
    reflexivity.
Qed.

Lemma not__negates_each_predicate_witness :
  ∃ r o',
    not_ elements sample_rule sample_table = (r, o')
    ∧ tags r = tags sample_rule
    ∧ size (fails r) = size (fails sample_rule)
    ∧ size (skips r) = size (skips sample_rule)
    ∧ (∀ i, (i < next_id sample_table)%positive -> obj o' i = obj sample_table i)
    ∧ (∀ j, j ∈ skips r ∪ fails r -> (next_id sample_table ≤ j)%positive)
    ∧ (∀ j, j ∈ fails r ->
         ∃ i, i ∈ fails sample_rule
              ∧ ∀ cfg, call (obj o' j) cfg
                       = (b ← call (obj sample_table i) cfg; Return (negb b)))
    ∧ (∀ i, i ∈ fails sample_rule ->
         ∃ j, j ∈ fails r
              ∧ ∀ cfg, call (obj o' j) cfg
                       = (b ← call (obj sample_table i) cfg; Return (negb b)))
    ∧ (∀ j, j ∈ skips r ->
         ∃ i, i ∈ skips sample_rule
              ∧ ∀ cfg, call (obj o' j) cfg
                       = (b ← call (obj sample_table i) cfg; Return (negb b)))
    ∧ (∀ i, i ∈ skips sample_rule ->
         ∃ j, j ∈ skips r
              ∧ ∀ cfg, call (obj o' j) cfg
                       = (b ← call (obj sample_table i) cfg; Return (negb b))).
Proof.
  exact (not__negates_each_predicate elements sample_rule sample_table
           iterates_elements sample_rule_allocated).
Defined.

(** X16. Negating a rule twice gives a rule that behaves as the first:
    it has the same tags, each of its predicates evaluates as one
    predicate of the first rule does and each predicate of the first rule
    has such a copy, fails among fails and skips among skips; so when
    the predicates of the first rule evaluate, the two rules are enabled
    for the same contexts. The doubly negated predicates are new objects
    all the same. *)
Theorem not__twice_evaluates_alike :
  ∀ (set_iter : gset PredId -> list PredId) (self : compound) (o : Objects),
    iterates set_iter ->
    (∀ i, i ∈ skips self ∪ fails self -> (i < next_id o)%positive) ->
    ∃ r1 o1 r2 o2,
      not_ set_iter self o = (r1, o1) ∧ not_ set_iter r1 o1 = (r2, o2)
      ∧ tags r2 = tags self
      ∧ (∀ k, k ∈ skips r2 ∪ fails r2 -> (next_id o ≤ k)%positive)
      ∧ (∀ k, k ∈ fails r2 ->
           ∃ i, i ∈ fails self ∧ ∀ cfg, call (obj o2 k) cfg = call (obj o i) cfg)
      ∧ (∀ i, i ∈ fails self ->
           ∃ k, k ∈ fails r2 ∧ ∀ cfg, call (obj o2 k) cfg = call (obj o i) cfg)
      ∧ (∀ k, k ∈ skips r2 ->
           ∃ i, i ∈ skips self ∧ ∀ cfg, call (obj o2 k) cfg = call (obj o i) cfg)
      ∧ (∀ i, i ∈ skips self ->
           ∃ k, k ∈ skips r2 ∧ ∀ cfg, call (obj o2 k) cfg = call (obj o i) cfg)
      ∧ ∀ cfg,
          (∀ i, i ∈ skips self ∪ fails self -> ∃ b, call (obj o i) cfg = Return b) ->
          enabled_for_config (obj o2) set_iter r2 cfg
          = enabled_for_config (obj o) set_iter self cfg.
Proof.
  intros set_iter self o Hiter Hold.
  destruct (not__spec set_iter self o Hiter Hold)
    as (r1 & o1 & Heq1 & Htags1 & _ & _ & Hle1 & Hkeep1 & Hnew1
        & Hf1 & Hf1' & Hs1 & Hs1').
  destruct (not__spec set_iter r1 o1 Hiter)
    as (r2 & o2 & Heq2 & Htags2 & _ & _ & Hle2 & Hkeep2 & Hnew2
        & Hf2 & Hf2' & Hs2 & Hs2').
  { intros j Hj. by apply Hnew1. }
  assert (∀ k, k ∈ fails r2 ->
            ∃ i, i ∈ fails self ∧ ∀ cfg, call (obj o2 k) cfg = call (obj o i) cfg)
    as Hfa.
  { intros k Hk. destruct (Hf2 k Hk) as (j & Hj & Hobj2).
    destruct (Hf1 j Hj) as (i & Hi & Hobj1).
    exists i. split; [done|]. intros cfg.
    rewrite Hobj2, Hobj1. apply call_Not_Not. }
  assert (∀ i, i ∈ fails self ->
            ∃ k, k ∈ fails r2 ∧ ∀ cfg, call (obj o2 k) cfg = call (obj o i) cfg)
    as Hfb.
  { intros i Hi. destruct (Hf1' i Hi) as (j & Hj & Hobj1).
    destruct (Hf2' j Hj) as (k & Hk & Hobj2).
    exists k. split; [done|]. intros cfg.
    rewrite Hobj2, Hobj1. apply call_Not_Not. }
  assert (∀ k, k ∈ skips r2 ->
            ∃ i, i ∈ skips self ∧ ∀ cfg, call (obj o2 k) cfg = call (obj o i) cfg)
    as Hsa.
  { intros k Hk. destruct (Hs2 k Hk) as (j & Hj & Hobj2).
    destruct (Hs1 j Hj) as (i & Hi & Hobj1).
    exists i. split; [done|]. intros cfg.
    rewrite Hobj2, Hobj1. apply call_Not_Not. }
  assert (∀ i, i ∈ skips self ->
            ∃ k, k ∈ skips r2 ∧ ∀ cfg, call (obj o2 k) cfg = call (obj o i) cfg)
    as Hsb.
  { intros i Hi. destruct (Hs1' i Hi) as (j & Hj & Hobj1).
    destruct (Hs2' j Hj) as (k & Hk & Hobj2).
    exists k. split; [done|]. intros cfg.
    rewrite Hobj2, Hobj1. apply call_Not_Not. }
  exists r1, o1, r2, o2. split; [done|]. split; [done|].
  split; [by rewrite Htags2|]. split.
  { intros k Hk. destruct (Hnew2 k Hk) as [H1 _]. lia. }
  split; [done|]. split; [done|]. split; [done|]. split; [done|].
  intros cfg Hev.
  destruct (enabled_set_iff (obj o) set_iter self cfg Hiter Hev) as (b & Hb & Hiff).
  destruct (enabled_set_iff (obj o2) set_iter r2 cfg Hiter) as (b2 & Hb2 & Hiff2).
  { intros k [Hk | Hk]%elem_of_union.
    - destruct (Hsa k Hk) as (i & Hi & Hcall). rewrite Hcall.
      apply Hev, elem_of_union. by left.
    - destruct (Hfa k Hk) as (i & Hi & Hcall). rewrite Hcall.
      apply Hev, elem_of_union. by right. }
  rewrite Hb, Hb2. f_equal. apply eq_true_iff_eq. rewrite Hiff, Hiff2. split.
  - intros H i [Hi | Hi]%elem_of_union.
    + destruct (Hsb i Hi) as (k & Hk & Hcall). rewrite <- Hcall.
      apply H, elem_of_union. by left.
    + destruct (Hfb i Hi) as (k & Hk & Hcall). rewrite <- Hcall.
      apply H, elem_of_union. by right.
  - intros H k [Hk | Hk]%elem_of_union.
    + destruct (Hsa k Hk) as (i & Hi & Hcall). rewrite Hcall.
      apply H, elem_of_union. by left.
    + destruct (Hfa k Hk) as (i & Hi & Hcall). rewrite Hcall.
      apply H, elem_of_union. by right.
Qed.

Lemma not__twice_evaluates_alike_witness :
  ∃ r1 o1 r2 o2,
    not_ elements sample_rule sample_table = (r1, o1)
    ∧ not_ elements r1 o1 = (r2, o2)
    ∧ tags r2 = tags sample_rule
    ∧ (∀ k, k ∈ skips r2 ∪ fails r2 -> (next_id sample_table ≤ k)%positive)
    ∧ (∀ k, k ∈ fails r2 ->
         ∃ i, i ∈ fails sample_rule
              ∧ ∀ cfg, call (obj o2 k) cfg = call (obj sample_table i) cfg)
    ∧ (∀ i, i ∈ fails sample_rule ->
         ∃ k, k ∈ fails r2
              ∧ ∀ cfg, call (obj o2 k) cfg = call (obj sample_table i) cfg)
    ∧ (∀ k, k ∈ skips r2 ->
         ∃ i, i ∈ skips sample_rule
              ∧ ∀ cfg, call (obj o2 k) cfg = call (obj sample_table i) cfg)
    ∧ (∀ i, i ∈ skips sample_rule ->
         ∃ k, k ∈ skips r2
              ∧ ∀ cfg, call (obj o2 k) cfg = call (obj sample_table i) cfg)
    ∧ ∀ cfg,
        (∀ i, i ∈ skips sample_rule ∪ fails sample_rule ->
              ∃ b, call (obj sample_table i) cfg = Return b) ->
        enabled_for_config (obj o2) elements r2 cfg
        = enabled_for_config (obj sample_table) elements sample_rule cfg.
Proof.
  exact (not__twice_evaluates_alike elements sample_rule sample_table
           iterates_elements sample_rule_allocated).
Defined.

(** ** Tags *)

Lemma tags__fields (tagnames : list string) :
  tags (tags_ tagnames) = list_to_set tagnames
  ∧ fails (tags_ tagnames) = ∅ ∧ skips (tags_ tagnames) = ∅.
Proof. unfold tags_. simpl. by rewrite (left_id_L ∅ (∪)). Qed.

(** X17. A rule made by [tags] carries the tags and no predicate, so it
    is enabled everywhere and only filters runs: its test is included
    exactly when none of its tags is excluded and, if there are tags to
    include, one of its tags is among them. For [requires_tag(t)] that
    is: [t] is not excluded, and [t] is included or nothing is. A rule
    without tags is included exactly when there is no tag to include,
    whatever is excluded. *)
Theorem tags_filter_runs :
  ∀ (include_tags exclude_tags : gset string),
    (∀ tagnames,
        include_test (tags_ tagnames) include_tags exclude_tags = true
        ↔ (∀ t, t ∈ tagnames -> t ∉ exclude_tags)
          ∧ (include_tags = ∅ ∨ ∃ t, t ∈ tagnames ∧ t ∈ include_tags))
    ∧ (∀ t,
         include_test (requires_tag t) include_tags exclude_tags = true
         ↔ (t ∉ exclude_tags) ∧ (include_tags = ∅ ∨ t ∈ include_tags))
    ∧ (∀ self, tags self = ∅ ->
         (include_test self include_tags exclude_tags = true
          ↔ include_tags = ∅))
    ∧ (∀ deref set_iter tagnames cfg,
         iterates set_iter ->
         enabled_for_config deref set_iter (tags_ tagnames) cfg = Return true).
Proof.
  intros include_tags exclude_tags.
  assert (∀ tagnames,
        include_test (tags_ tagnames) include_tags exclude_tags = true
        ↔ (∀ t, t ∈ tagnames -> t ∉ exclude_tags)
          ∧ (include_tags = ∅ ∨ ∃ t, t ∈ tagnames ∧ t ∈ include_tags)) as Htags.
  { intros tagnames. rewrite include_test_true.
    destruct (tags__fields tagnames) as (-> & _ & _). split.
    - intros [Hex Hin]. split.
      + intros t Ht Hte.
        assert (t ∈ list_to_set (C := gset string) tagnames ∩ exclude_tags) as H.
        { apply elem_of_intersection. split; [|done]. by apply elem_of_list_to_set. }
        rewrite Hex in H. by apply not_elem_of_empty in H.
      + destruct Hin as [-> | Hne]; [by left|]. right.
        apply set_choose_L in Hne as [t Ht].
        apply elem_of_intersection in Ht as [Ht1 Ht2].
        exists t. split; [|done]. by apply elem_of_list_to_set in Ht1.
    - intros [Hex Hin]. split.
      + apply set_eq. intros t. split; [|by intros ?%not_elem_of_empty].
        intros [Ht1 Ht2]%elem_of_intersection. exfalso.
        apply elem_of_list_to_set in Ht1. by apply (Hex t).
      + destruct Hin as [-> | (t & Ht1 & Ht2)]; [by left|]. right.
        intros Hempty.
        assert (t ∈ list_to_set (C := gset string) tagnames ∩ include_tags) as H.
        { apply elem_of_intersection. split; [|done]. by apply elem_of_list_to_set. }
        rewrite Hempty in H. by apply not_elem_of_empty in H. }
  split; [done|]. split; [|split].
  - intros t. unfold requires_tag. rewrite Htags. split.
    + intros [Hex Hin]. split.
      * apply Hex, list_elem_of_singleton. done.
      * destruct Hin as [? | (t' & ->%list_elem_of_singleton & ?)]; auto.
    + intros [Hex Hin]. split.
      * by intros t' ->%list_elem_of_singleton.
      * destruct Hin as [? | ?]; [by left|]. right. exists t. split; [|done].
        by apply list_elem_of_singleton.
  - intros self Hnone. rewrite include_test_true, Hnone.
    rewrite !(left_absorb_L ∅ (∩)). split.
    + intros [_ [H | H]]; done.
    + intros ->. split; [done | by left].
  - intros deref set_iter tagnames cfg Hiter. unfold enabled_for_config.
    destruct (tags__fields tagnames) as (_ & -> & ->).
    by rewrite (left_id_L ∅ (∪)), iterates_empty.
Qed.

Lemma tags_filter_runs_witness :
  include_test {| fails := {[ 1%positive ]}; skips := ∅; tags := ∅ |}
    {[ "fast" ]} {[ "slow" ]} = true
  ↔ ({[ "fast" ]} : gset string) = ∅.
Proof.
  exact (proj1 (proj2 (proj2 (tags_filter_runs {[ "fast" ]} {[ "slow" ]})))
           {| fails := {[ 1%positive ]}; skips := ∅; tags := ∅ |} eq_refl).
Defined.

(** X18. The tags of [a.add(b)] filter as those of both operands
    together: a test left out of a run because of an excluded tag of
    [a] or of [b] is left out for the sum. With no tag to include, the
    sum is included exactly when both operands are; with no tag to
    exclude, exactly when one of them is. *)
Theorem include_test_of_add :
  ∀ (h : gmap Ref compound) (a b : Ref) (ca cb : compound)
    (include_tags exclude_tags : gset string),
    h !! a = Some ca -> h !! b = Some cb ->
    ∃ r h' c,
      add a [b] h = Some (r, h') ∧ h' !! r = Some c
      ∧ (include_test c include_tags exclude_tags = true ->
         tags ca ∩ exclude_tags = ∅ ∧ tags cb ∩ exclude_tags = ∅)
      ∧ include_test c ∅ exclude_tags
        = include_test ca ∅ exclude_tags && include_test cb ∅ exclude_tags
      ∧ include_test c include_tags ∅
        = include_test ca include_tags ∅ || include_test cb include_tags ∅.
Proof.
  intros h a b ca cb include_tags exclude_tags Ha Hb.
  exists (fresh (dom h)), (<[fresh (dom h) := rule_union ca cb]> h),
    (rule_union ca cb).
  split; [by apply add_pair|]. split; [by rewrite lookup_insert_eq|].
  assert (∀ x : gset string,
             (tags ca ∪ tags cb) ∩ x = ∅ ↔ tags ca ∩ x = ∅ ∧ tags cb ∩ x = ∅)
    as Hsplit.
  { intros x. rewrite intersection_union_r_L, empty_union_L. done. }
  split; [|split].
  - rewrite include_test_true. simpl. intros [Hex _]. by apply Hsplit.
  - apply eq_true_iff_eq.
    rewrite andb_true_iff, !include_test_true. simpl. rewrite Hsplit.
    intuition.
  - apply eq_true_iff_eq.
    rewrite orb_true_iff, !include_test_true. simpl.
    rewrite !(right_absorb_L ∅ (∩)).
    assert ((tags ca ∪ tags cb) ∩ include_tags ≠ ∅
            ↔ tags ca ∩ include_tags ≠ ∅ ∨ tags cb ∩ include_tags ≠ ∅) as Hne.
    { rewrite Hsplit. split.
      - intros Hn. destruct (decide (tags ca ∩ include_tags = ∅)); [|by left].
        right. intros ?. by apply Hn.
      - intros [Hn | Hn] [? ?]; by apply Hn. }
    rewrite Hne. intuition.
Qed.

Lemma include_test_of_add_witness :
  ∃ r h' c,
    add 1%positive [2%positive] sample_store = Some (r, h') ∧ h' !! r = Some c
    ∧ (include_test c {[ "fast" ]} {[ "slow" ]} = true ->
       tags {| fails := {[ 1%positive ]}; skips := ∅; tags := {[ "fast" ]} |}
       ∩ {[ "slow" ]} = ∅
       ∧ tags {| fails := ∅; skips := {[ 2%positive ]}; tags := {[ "slow" ]} |}
         ∩ {[ "slow" ]} = ∅)
    ∧ include_test c ∅ {[ "slow" ]}
      = include_test {| fails := {[ 1%positive ]}; skips := ∅;
                        tags := {[ "fast" ]} |} ∅ {[ "slow" ]}
        && include_test {| fails := ∅; skips := {[ 2%positive ]};
                           tags := {[ "slow" ]} |} ∅ {[ "slow" ]}
    ∧ include_test c {[ "fast" ]} ∅
      = include_test {| fails := {[ 1%positive ]}; skips := ∅;
                        tags := {[ "fast" ]} |} {[ "fast" ]} ∅
        || include_test {| fails := ∅; skips := {[ 2%positive ]};
                           tags := {[ "slow" ]} |} {[ "fast" ]} ∅.
Proof.
  apply (include_test_of_add sample_store 1%positive 2%positive);
    vm_compute; reflexivity.
Defined.

Lemma foldl_rule_union_elem (cs : list compound) :
  ∀ c : compound,
    (∀ i, i ∈ fails (foldl rule_union c cs)
          ↔ i ∈ fails c ∨ ∃ s, s ∈ cs ∧ i ∈ fails s)
    ∧ (∀ i, i ∈ skips (foldl rule_union c cs)
            ↔ i ∈ skips c ∨ ∃ s, s ∈ cs ∧ i ∈ skips s)
    ∧ (∀ t, t ∈ tags (foldl rule_union c cs)
            ↔ t ∈ tags c ∨ ∃ s, s ∈ cs ∧ t ∈ tags s).
Proof.
  induction cs as [|s cs IH]; intros c.
  - simpl. repeat split; try (by left);
      intros [? | (s & Hs & _)]; try done; by apply elem_of_nil in Hs.
  - simpl. destruct (IH (rule_union c s)) as (Hf & Hs & Ht).
    repeat split.
    + intros [[H | H]%elem_of_union | (s' & Hs' & H)]%Hf; [by left | |].
      * right. exists s. split; [apply elem_of_cons; by left | done].
      * right. exists s'. split; [apply elem_of_cons; by right | done].
    + intros [H | (s' & [-> | Hs']%elem_of_cons & H)]; apply Hf.
      * left. apply elem_of_union. by left.
      * left. apply elem_of_union. by right.
      * right. by exists s'.
    + intros [[H | H]%elem_of_union | (s' & Hs' & H)]%Hs; [by left | |].
      * right. exists s. split; [apply elem_of_cons; by left | done].
      * right. exists s'. split; [apply elem_of_cons; by right | done].
    + intros [H | (s' & [-> | Hs']%elem_of_cons & H)]; apply Hs.
      * left. apply elem_of_union. by left.
      * left. apply elem_of_union. by right.
      * right. by exists s'.
    + intros [[H | H]%elem_of_union | (s' & Hs' & H)]%Ht; [by left | |].
      * right. exists s. split; [apply elem_of_cons; by left | done].
      * right. exists s'. split; [apply elem_of_cons; by right | done].
    + intros [H | (s' & [-> | Hs']%elem_of_cons & H)]; apply Ht.
      * left. apply elem_of_union. by left.
      * left. apply elem_of_union. by right.
      * right. by exists s'.
Qed.

(** X19. [add] takes any number of rules: the rule it returns is a new
    object, and a predicate or a tag is in one of its sets exactly when
    it is in that set of the rule [add] is called on or of one of the
    rules given; no rule that existed is changed. With no rule given,
    [a.add()] is a copy of [a]. *)
Theorem add_of_many_rules :
  ∀ (h : gmap Ref compound) (self : Ref) (others : list Ref) (c : compound)
    (cs : list compound),
    h !! self = Some c ->
    Forall2 (fun r s => h !! r = Some s) others cs ->
    ∃ r h' c',
      add self others h = Some (r, h') ∧ h !! r = None ∧ h' !! r = Some c'
      ∧ (∀ l, l ≠ r -> h' !! l = h !! l)
      ∧ (∀ i, i ∈ fails c' ↔ i ∈ fails c ∨ ∃ s, s ∈ cs ∧ i ∈ fails s)
      ∧ (∀ i, i ∈ skips c' ↔ i ∈ skips c ∨ ∃ s, s ∈ cs ∧ i ∈ skips s)
      ∧ (∀ t, t ∈ tags c' ↔ t ∈ tags c ∨ ∃ s, s ∈ cs ∧ t ∈ tags s)
      ∧ (others = [] -> c' = c).
Proof.
  intros h self others c cs Hself Hothers.
  exists (fresh (dom h)), (<[fresh (dom h) := foldl rule_union c cs]> h),
    (foldl rule_union c cs).
  split; [by apply add_unions|].
  split; [apply not_elem_of_dom, is_fresh|].
  split; [apply lookup_insert_eq|]. split.
  { intros l Hl. by rewrite lookup_insert_ne. }
  destruct (foldl_rule_union_elem cs c) as (Hf & Hs & Ht).
  split; [done|]. split; [done|]. split; [done|].
  intros ->. by inversion Hothers.
Qed.

Lemma add_of_many_rules_witness :
  ∃ r h' c',
    add 1%positive [2%positive; 3%positive; 1%positive] sample_store = Some (r, h')
    ∧ sample_store !! r = None ∧ h' !! r = Some c'
    ∧ (∀ l, l ≠ r -> h' !! l = sample_store !! l)
    ∧ (∀ i, i ∈ fails c'
            ↔ i ∈ fails {| fails := {[ 1%positive ]}; skips := ∅;
                           tags := {[ "fast" ]} |}
              ∨ ∃ s, s ∈ [ {| fails := ∅; skips := {[ 2%positive ]};
                              tags := {[ "slow" ]} |};
                           {| fails := {[ 3%positive ]}; skips := {[ 1%positive ]};
                              tags := ∅ |};
                           {| fails := {[ 1%positive ]}; skips := ∅;
                              tags := {[ "fast" ]} |} ]
                     ∧ i ∈ fails s)
    ∧ (∀ i, i ∈ skips c'
            ↔ i ∈ skips {| fails := {[ 1%positive ]}; skips := ∅;
                           tags := {[ "fast" ]} |}
              ∨ ∃ s, s ∈ [ {| fails := ∅; skips := {[ 2%positive ]};
                              tags := {[ "slow" ]} |};
                           {| fails := {[ 3%positive ]}; skips := {[ 1%positive ]};
                              tags := ∅ |};
                           {| fails := {[ 1%positive ]}; skips := ∅;
                              tags := {[ "fast" ]} |} ]
                     ∧ i ∈ skips s)
    ∧ (∀ t, t ∈ tags c'
            ↔ t ∈ tags {| fails := {[ 1%positive ]}; skips := ∅;
                          tags := {[ "fast" ]} |}
              ∨ ∃ s, s ∈ [ {| fails := ∅; skips := {[ 2%positive ]};
                              tags := {[ "slow" ]} |};
                           {| fails := {[ 3%positive ]}; skips := {[ 1%positive ]};
                              tags := ∅ |};
                           {| fails := {[ 1%positive ]}; skips := ∅;
                              tags := {[ "fast" ]} |} ]
                     ∧ t ∈ tags s)
    ∧ ([2%positive; 3%positive; 1%positive] = [] ->
       c' = {| fails := {[ 1%positive ]}; skips := ∅; tags := {[ "fast" ]} |}).
Proof.
  apply (add_of_many_rules sample_store 1%positive
           [2%positive; 3%positive; 1%positive]).
  - vm_compute. reflexivity.
  - repeat constructor; vm_compute; reflexivity.
Defined.

(** ** Expected failures *)

Lemma expect_failure_loop_first
    (str_mod : string -> DescriptionArgs -> PyResult string)
    (deref : PredId -> Predicate) (cfg : option Config)
    (l1 l2 : list PredId) (i : PredId) (s : string) (ex : PyExc)
    (tb : list string) (name_ : string) (w : World) :
  quiet deref cfg l1 -> call (deref i) cfg = Return true ->
  _as_string str_mod (deref i) cfg false = Return s ->
  expect_failure_loop str_mod deref (l1 ++ i :: l2) cfg ex tb name_ w
  = (Return (),
     print (name_ +:+ " failed as expected (" +:+ s +:+ "): " +:+ exc_str ex
            +:+ " ") w).
Proof.
  intros Hq Hi Hs. induction Hq as [|j l1 Hj _ IH]; simpl.
  - by rewrite Hi, Hs.
  - by rewrite Hj.
Qed.

(** X20. When the body raises an exception and a fail predicate matches,
    the wrapper takes the failure as expected: the call returns [None],
    the exception is dropped, and one line is printed that names the
    function, the description of the first matching fail predicate and
    the text of the exception. An exception that does not derive from
    [Exception] is never taken as expected: it leaves the wrapper as
    raised, whatever the fail predicates. *)
Theorem _do_swallows_expected_failure :
  ∀ (str_mod : string -> DescriptionArgs -> PyResult string)
    (deref : PredId -> Predicate) (set_iter : gset PredId -> list PredId)
    (test_name : string) (R : Type) (self : compound) (cfg : option Config)
    (fn : TestFn R) (w w' : World) (ex : PyExc),
    iterates set_iter ->
    (∀ i, i ∈ skips self -> call (deref i) cfg = Return false) ->
    invoke fn w = (Raise ex, w') ->
    (exc_is_Exception ex = true ->
     ∀ l1 i l2 s,
       set_iter (fails self) = l1 ++ i :: l2 ->
       Forall (fun j => call (deref j) cfg = Return false) l1 ->
       call (deref i) cfg = Return true ->
       _as_string str_mod (deref i) cfg false = Return s ->
       _do str_mod deref set_iter test_name self cfg fn w
       = (Return None,
          {| stdout := stdout w' ++ [fn_name fn +:+ " failed as expected (" +:+ s
                                     +:+ "): " +:+ exc_str ex +:+ " "];
             invocations := invocations w' |}))
    ∧ (exc_is_Exception ex = false ->
       _do str_mod deref set_iter test_name self cfg fn w = (Raise ex, w')).
Proof.
  intros str_mod deref set_iter test_name R self cfg fn w w' ex Hiter Hskips Hinv.
  split.
  - intros Hexc l1 i l2 s Heq Hq Hi Hs. unfold _do.
    rewrite skip_loop_quiet by by apply quiet_set.
    rewrite Hinv, Hexc. unfold _expect_failure. rewrite Heq.
    by rewrite (expect_failure_loop_first str_mod deref cfg l1 l2 i s).
  - intros Hexc. unfold _do.
    rewrite skip_loop_quiet by by apply quiet_set.
    by rewrite Hinv, Hexc.
Qed.

Lemma _do_swallows_expected_failure_witness :
  _do sample_str_mod sample_objects elements "test_x"
      {| fails := {[ 1%positive ]}; skips := ∅; tags := ∅ |}
      (sample_config "sqlite" "pysqlite" [3; 39]%Z) sample_raising sample_world
  = (Return None,
     {| stdout := stdout {| stdout := []; invocations := 1 |}
                  ++ [fn_name sample_raising +:+ " failed as expected ("
                      +:+ "sqlite" +:+ "): " +:+ exc_str sample_ValueError_x
                      +:+ " "];
        invocations := invocations {| stdout := []; invocations := 1 |} |}).
Proof.
  apply (proj1 (_do_swallows_expected_failure sample_str_mod sample_objects
                  elements "test_x" Z
                  {| fails := {[ 1%positive ]}; skips := ∅; tags := ∅ |}
                  (sample_config "sqlite" "pysqlite" [3; 39]%Z)
                  sample_raising sample_world {| stdout := []; invocations := 1 |}
                  sample_ValueError_x iterates_elements
                  ltac:(intros i Hi; by apply not_elem_of_empty in Hi) eq_refl)
               eq_refl [] 1%positive [] "sqlite");
    [reflexivity | constructor | reflexivity | reflexivity].
Defined.

(** X21. Around a block, [fail_if] never skips: the skip predicates of
    the rule count as fail predicates. If the block raises an exception
    and a skip or fail predicate matches, the exception is dropped and a
    line for the block is printed; if none matches, the exception comes
    out as raised. If the block ends normally, it is an
    [AssertionError] when a skip or fail predicate matches and nothing
    otherwise. *)
Theorem fail_if_treats_skips_as_fails :
  ∀ (str_mod : string -> DescriptionArgs -> PyResult string)
    (deref : PredId -> Predicate) (set_iter : gset PredId -> list PredId)
    (self : compound) (current : option Config)
    (block : World -> PyResult unit * World) (w w' : World),
    iterates set_iter ->
    (∀ ex, block w = (Raise ex, w') -> exc_is_Exception ex = true ->
       ∀ l1 i l2 s,
         set_iter (skips self ∪ fails self) = l1 ++ i :: l2 ->
         Forall (fun j => call (deref j) current = Return false) l1 ->
         call (deref i) current = Return true ->
         _as_string str_mod (deref i) current false = Return s ->
         fail_if str_mod deref set_iter self current block w
         = (Return (),
            {| stdout := stdout w' ++ ["block failed as expected (" +:+ s +:+ "): "
                                       +:+ exc_str ex +:+ " "];
               invocations := invocations w' |}))
    ∧ (∀ ex, block w = (Raise ex, w') ->
         (∀ i, i ∈ skips self ∪ fails self -> call (deref i) current = Return false) ->
         fail_if str_mod deref set_iter self current block w = (Raise ex, w'))
    ∧ (block w = (Return (), w') ->
       (∀ i, i ∈ skips self ∪ fails self -> call (deref i) current = Return false) ->
       fail_if str_mod deref set_iter self current block w = (Return (), w'))
    ∧ (block w = (Return (), w') ->
       ∀ ss,
         (∀ i, i ∈ skips self ∪ fails self ->
               ∃ b, call (deref i) current = Return b) ->
         (∃ i, i ∈ skips self ∪ fails self ∧ call (deref i) current = Return true) ->
         Forall2 (fun i s => _as_string str_mod (deref i) current false = Return s)
                 (set_iter (skips self ∪ fails self)) ss ->
         fail_if str_mod deref set_iter self current block w
         = (Raise (AssertionError ("Unexpected success for 'block' ("
                                   +:+ str_join " and " ss +:+ ")")), w')).
Proof.
  intros str_mod deref set_iter self current block w w' Hiter.
  unfold fail_if. simpl. rewrite (left_id_L ∅ (∪)).
  split; [|split; [|split]].
  - intros ex Hblock Hexc l1 i l2 s Heq Hq Hi Hs.
    rewrite Hblock, Hexc. unfold _expect_failure. simpl. rewrite Heq.
    by rewrite (expect_failure_loop_first str_mod deref current l1 l2 i s).
  - intros ex Hblock Hq. rewrite Hblock.
    destruct (exc_is_Exception ex); [|done].
    unfold _expect_failure. simpl.
    rewrite expect_failure_loop_quiet by by apply quiet_set.
    by rewrite raise__same.
  - intros Hblock Hq. rewrite Hblock.
    rewrite _expect_success_quiet; [done|]. simpl. by apply quiet_set.
  - intros Hblock ss Hall Hex Hss. rewrite Hblock.
    by rewrite (_expect_success_match str_mod deref set_iter current _ "block" ss).
Qed.

Lemma fail_if_treats_skips_as_fails_witness :
  fail_if sample_str_mod sample_objects elements
    {| fails := ∅; skips := {[ 1%positive ]}; tags := ∅ |}
    (sample_config "sqlite" "pysqlite" [3; 39]%Z)
    (fun w => (Raise sample_ValueError_x, w)) sample_world
  = (Return (),
     {| stdout := stdout sample_world
                  ++ ["block failed as expected (" +:+ "sqlite" +:+ "): "
                      +:+ exc_str sample_ValueError_x +:+ " "];
        invocations := invocations sample_world |}).
Proof.
  apply (proj1 (fail_if_treats_skips_as_fails sample_str_mod sample_objects
                  elements {| fails := ∅; skips := {[ 1%positive ]}; tags := ∅ |}
                  (sample_config "sqlite" "pysqlite" [3; 39]%Z)
                  (fun w => (Raise sample_ValueError_x, w)) sample_world
                  sample_world iterates_elements)
               sample_ValueError_x eq_refl eq_refl [] 1%positive [] "sqlite");
    [vm_compute; reflexivity | constructor | reflexivity | reflexivity].
Defined.

(** ** Rules made by the builders *)





(** X23. A rule made by [open] changes nothing around a test: the body
    is entered, and its value or its exception comes out as it is. A
    rule made by [closed] always skips: the body is not entered and the
    skip signal carries the description of its predicate, rendered from
    the text marked as skip. *)
Theorem open_runs_and_closed_skips :
  ∀ (str_mod : string -> DescriptionArgs -> PyResult string)
    (set_iter : gset PredId -> list PredId)
    (re_match : string -> option (string * option string * option string))
    (test_name : string) (o : Objects),
    iterates set_iter ->
    (∃ rule o',
        open_ set_iter re_match o = Return (rule, o')
        ∧ ∀ (R : Type) (cfg : option Config) (fn : TestFn R) (w : World),
            _do str_mod (obj o') set_iter test_name rule cfg fn w
            = match invoke fn w with
              | (Return v, w') => (Return (Some v), w')
              | (Raise ex, w') => (Raise ex, w')
              end)
    ∧ (∃ rule o',
          closed set_iter re_match o = Return (rule, o')
          ∧ ∀ (R : Type) (cfg : option Config) (fn : TestFn R) (w : World) s,
              _as_string str_mod (BooleanPredicate true "marked as skip") cfg false
              = Return s ->
              _do str_mod (obj o') set_iter test_name rule cfg fn w
              = (Raise (SkipTest ("'" +:+ test_name +:+ "' : " +:+ s)), w)).
Proof.
  intros str_mod set_iter re_match test_name o Hiter. split.
  - eexists _, _. split; [reflexivity|]. intros R cfg fn w.
    unfold _do. simpl skips. rewrite iterates_singleton by done.
    simpl skip_loop. rewrite fn_lookup_insert. simpl.
    destruct (invoke fn w) as [[v|ex] w'].
    + unfold _expect_success. simpl.
      assert (set_bool (∅ : gset PredId) = false) as -> by by apply set_bool_false.
      done.
    + destruct (exc_is_Exception ex); [|done].
      unfold _expect_failure. simpl fails. rewrite iterates_empty by done.
      unfold expect_failure_loop. by rewrite raise__same.
  - eexists _, _. split; [reflexivity|]. intros R cfg fn w s Hs.
    unfold _do. simpl skips. rewrite iterates_singleton by done.
    change [next_id o] with ([] ++ next_id o :: [] : list PredId).
    rewrite (skip_loop_first str_mod _ test_name cfg [] [] (next_id o) s);
      [done | constructor | |].
    + simpl. by rewrite fn_lookup_insert.
    + simpl. by rewrite fn_lookup_insert.
Qed.

Lemma open_runs_and_closed_skips_witness :
  ∃ rule o',
    closed elements sample_re_match sample_table = Return (rule, o')
    ∧ ∀ (R : Type) (cfg : option Config) (fn : TestFn R) (w : World) s,
        _as_string sample_str_mod (BooleanPredicate true "marked as skip") cfg false
        = Return s ->
        _do sample_str_mod (obj o') elements "test_x" rule cfg fn w
        = (Raise (SkipTest ("'" +:+ "test_x" +:+ "' : " +:+ s)), w).
Proof.
  exact (proj2 (open_runs_and_closed_skips sample_str_mod elements sample_re_match
                  "test_x" sample_table iterates_elements)).
Defined.

Lemma set_description_None (p : Predicate) : set_description p None = p.
Proof. reflexivity. Qed.

Lemma BooleanPredicate___init___reason (value : bool) (reason : option string)
    (fallback : string) :
  str_bool fallback = true ->
  BooleanPredicate___init__ value
    (Some (if opt_str_bool reason then default "" reason else fallback))
  = BooleanPredicate value
      (if opt_str_bool reason then default "" reason else fallback).
Proof.
  intros Hf. unfold BooleanPredicate___init__.
  destruct reason as [[|a r]|]; simpl; by rewrite ?Hf.
Qed.

(** X24. A rule made by [fails] expects the test to fail everywhere:
    when the body returns, the wrapper raises an [AssertionError] for an
    unexpected success that names the reason, and when the body raises
    an exception the wrapper drops it, returns [None] and prints the
    line of an expected failure. The reason is the one given, or
    expected to fail when none or an empty one is given. *)
Theorem fails_expects_failure_everywhere :
  ∀ (str_mod : string -> DescriptionArgs -> PyResult string)
    (set_iter : gset PredId -> list PredId)
    (re_match : string -> option (string * option string * option string))
    (test_name : string) (o : Objects) (reason : option string),
    iterates set_iter ->
    ∃ rule o',
      fails_ set_iter re_match reason o = Return (rule, o')
      ∧ ∀ (R : Type) (cfg : option Config) (fn : TestFn R) (w w' : World) s,
          _as_string str_mod
            (BooleanPredicate true
               (if opt_str_bool reason then default "" reason
                else "expected to fail")) cfg false = Return s ->
          (∀ v, invoke fn w = (Return v, w') ->
                _do str_mod (obj o') set_iter test_name rule cfg fn w
                = (Raise (AssertionError ("Unexpected success for '" +:+ fn_name fn
                                          +:+ "' (" +:+ s +:+ ")")), w'))
          ∧ (∀ ex, invoke fn w = (Raise ex, w') -> exc_is_Exception ex = true ->
                   _do str_mod (obj o') set_iter test_name rule cfg fn w
                   = (Return None,
                      {| stdout := stdout w' ++ [fn_name fn +:+ " failed as expected ("
                                                 +:+ s +:+ "): " +:+ exc_str ex
                                                 +:+ " "];
                         invocations := invocations w' |})).
Proof.
  intros str_mod set_iter re_match test_name o reason Hiter.
  eexists _, _. split.
  { unfold fails_, fails_if. simpl.
    rewrite (BooleanPredicate___init___reason true reason "expected to fail") by done.
    reflexivity. }
  intros R cfg fn w w' s Hs.
  assert (∀ l, set_iter ∅ = l -> l = []) as Hnil.
  { intros l <-. by apply iterates_empty. }
  split.
  - intros v Hinv. unfold _do. simpl skips.
    rewrite (Hnil _ eq_refl). simpl skip_loop. cbv iota. rewrite Hinv.
    unfold _expect_success. simpl fails.
    assert (set_bool ({[ next_id o ]} : gset PredId) = true) as ->.
    { apply set_bool_true. apply non_empty_singleton_L. }
    simpl negb. cbv iota. rewrite iterates_singleton by done.
    change [next_id o] with ([] ++ next_id o :: [] : list PredId) at 1.
    rewrite (expect_success_loop_first str_mod _ cfg [] [] [next_id o]
               (next_id o) [s] (fn_name fn)); [done | constructor | |].
    + cbn [obj]. by rewrite fn_lookup_insert.
    + unfold all_descriptions. cbn [obj].
      by rewrite fn_lookup_insert, set_description_None, Hs.
  - intros ex Hinv Hexc. unfold _do. simpl skips.
    rewrite (Hnil _ eq_refl). simpl skip_loop. cbv iota. rewrite Hinv, Hexc.
    unfold _expect_failure. simpl fails. rewrite iterates_singleton by done.
    change [next_id o] with ([] ++ next_id o :: [] : list PredId).
    rewrite (expect_failure_loop_first str_mod _ cfg [] [] (next_id o) s);
      [done | constructor | |].
    + cbn [obj]. by rewrite fn_lookup_insert.
    + cbn [obj]. by rewrite fn_lookup_insert, set_description_None.
Qed.

Lemma fails_expects_failure_everywhere_witness :
  ∃ rule o',
    fails_ elements sample_re_match None sample_table = Return (rule, o')
    ∧ ∀ (R : Type) (cfg : option Config) (fn : TestFn R) (w w' : World) s,
        _as_string sample_str_mod
          (BooleanPredicate true
             (if opt_str_bool None then default "" None else "expected to fail"))
          cfg false = Return s ->
        (∀ v, invoke fn w = (Return v, w') ->
              _do sample_str_mod (obj o') elements "test_x" rule cfg fn w
              = (Raise (AssertionError ("Unexpected success for '" +:+ fn_name fn
                                        +:+ "' (" +:+ s +:+ ")")), w'))
        ∧ (∀ ex, invoke fn w = (Raise ex, w') -> exc_is_Exception ex = true ->
                 _do sample_str_mod (obj o') elements "test_x" rule cfg fn w
                 = (Return None,
                    {| stdout := stdout w' ++ [fn_name fn +:+ " failed as expected ("
                                               +:+ s +:+ "): " +:+ exc_str ex
                                               +:+ " "];
                       invocations := invocations w' |})).
Proof.
  exact (fails_expects_failure_everywhere sample_str_mod elements sample_re_match
           "test_x" sample_table None iterates_elements).
Defined.

(** ** Descriptors *)



Lemma int_digits_nonneg (d : string) :
  ∀ acc z, (0 ≤ acc)%Z -> int_digits acc d = Some z -> (0 ≤ z)%Z.
Proof.
  induction d as [|c d IH]; intros acc z Hacc; simpl.
  - intros [= <-]. done.
  - destruct (is_digit c); [|done]. apply IH. lia.
Qed.

Lemma int_tuple_empty_piece (pieces : list string) :
  "" ∈ pieces ->
  ∃ e, int_tuple pieces = Raise e ∧ exc_class e = "ValueError".
Proof.
  induction pieces as [|d pieces IH]; [by intros ?%elem_of_nil|].
  intros [<- | Hin]%elem_of_cons.
  - eexists. split; [reflexivity | done].
  - simpl. unfold py_int.
    destruct d as [|c d]; [eexists; split; [reflexivity | done]|].
    destruct (int_digits 0 (String c d)) as [z|];
      [|eexists; split; [reflexivity | done]].
    destruct (IH Hin) as (e & -> & He). by exists e.
Qed.

Lemma int_tuple_digits (pieces : list string) (zs : list Z) :
  Forall2 (fun piece z => piece ≠ "" ∧ int_digits 0 piece = Some z) pieces zs ->
  int_tuple pieces = Return (VInt <$> zs) ∧ Forall (fun z => (0 ≤ z)%Z) zs.
Proof.
  induction 1 as [|piece z pieces zs [Hne Hz] _ [IH1 IH2]]; [by split|].
  split.
  - simpl. unfold py_int. destruct piece; [done|]. by rewrite Hz, IH1.
  - constructor; [|done]. by apply (int_digits_nonneg piece 0).
Qed.

Lemma as_predicate_DStr (set_iter : gset PredId -> list PredId)
    (re_match : string -> option (string * option string * option string))
    (o : Objects) (s : string) (description : option string) :
  as_predicate set_iter re_match o (DStr s) description
  = match re_match s with
    | None => Raise (ValueError ("Couldn't locate DB name in predicate: " +:+ s))
    | Some (db_, op_, group3) =>
        spec_ ← (if opt_str_bool group3
                 then zs ← int_tuple (str_split "." (default "" group3));
                      Return (VTuple zs)
                 else Return VNone);
        SpecPredicate___init__ db_ (OpKey <$> op_) spec_ description
    end.
Proof. reflexivity. Qed.

(** X26. A string is taken apart by the pattern. A string the pattern
    does not match is refused with [ValueError]. Without a version the
    predicate has no spec. With a version, the text between the dots is
    read as integers: an empty piece, as in a version that ends with a
    dot or has two dots in a row, is refused with [ValueError]; pieces
    of digits give a spec tuple of as many integers, none negative. The
    predicate takes the description given. *)
Theorem as_predicate_reads_the_version :
  ∀ (set_iter : gset PredId -> list PredId)
    (re_match : string -> option (string * option string * option string))
    (o : Objects) (s : string) (description : option string),
    (re_match s = None ->
     ∃ e, as_predicate set_iter re_match o (DStr s) description = Raise e
          ∧ exc_class e = "ValueError")
    ∧ (∀ db_ op_,
         re_match s = Some (db_, op_, None) ->
         as_predicate set_iter re_match o (DStr s) description
         = Return (SpecPredicate db_ (OpKey <$> op_) VNone description))
    ∧ (∀ db_ op_ group3,
         re_match s = Some (db_, op_, Some group3) -> group3 ≠ "" ->
         "" ∈ str_split "." group3 ->
         ∃ e, as_predicate set_iter re_match o (DStr s) description = Raise e
              ∧ exc_class e = "ValueError")
    ∧ (∀ db_ op_ group3 zs,
         re_match s = Some (db_, op_, Some group3) -> group3 ≠ "" ->
         Forall2 (fun piece z => piece ≠ "" ∧ int_digits 0 piece = Some z)
                 (str_split "." group3) zs ->
         as_predicate set_iter re_match o (DStr s) description
         = Return (SpecPredicate db_ (OpKey <$> op_) (int_tuple_val zs) description)
         ∧ Forall (fun z => (0 ≤ z)%Z) zs).
Proof.
  intros set_iter re_match o s description.
  rewrite as_predicate_DStr. split; [|split; [|split]].
  - intros ->. eexists. split; [reflexivity | done].
  - by intros db_ op_ ->.
  - intros db_ op_ group3 -> Hne Hempty.
    change (opt_str_bool (Some group3)) with (str_bool group3).
    change (default "" (Some group3)) with group3.
    rewrite (str_bool_true _ Hne).
    destruct (int_tuple_empty_piece _ Hempty) as (e & -> & He). by exists e.
  - intros db_ op_ group3 zs -> Hne Hpieces.
    change (opt_str_bool (Some group3)) with (str_bool group3).
    change (default "" (Some group3)) with group3.
    rewrite (str_bool_true _ Hne).
    destruct (int_tuple_digits _ _ Hpieces) as [-> Hpos]. by split.
Qed.

Lemma as_predicate_reads_the_version_witness :
  ∃ e, as_predicate elements sample_re_match sample_table (DStr "pg >= 9..1") None
       = Raise e
       ∧ exc_class e = "ValueError".
Proof.
  apply (proj1 (proj2 (proj2 (as_predicate_reads_the_version elements
                                sample_re_match sample_table "pg >= 9..1" None)))
               "pg" (Some ">=") "9..1");
    [reflexivity | discriminate |].
  apply elem_of_cons. right. apply elem_of_cons. by left.
Defined.

Section Against.

Variable set_iter : gset PredId -> list PredId.
Variable re_match : string -> option (string * option string * option string).
Variable o : Objects.

Lemma as_predicates_each (qs : list Descriptor) (ps : list Predicate)
    (description : option string) :
  Forall2 (fun q p => as_predicate set_iter re_match o q description = Return p)
          qs ps ->
  as_predicates set_iter re_match o qs description = Return ps.
Proof.
  induction 1 as [|q p qs ps Hq _ IH]; [done|]. simpl. by rewrite Hq, IH.
Qed.

Lemma as_predicates_first_error (l1 l2 : list Descriptor) (q : Descriptor)
    (ps1 : list Predicate) (description : option string) (e : PyExc) :
  Forall2 (fun q p => as_predicate set_iter re_match o q description = Return p)
          l1 ps1 ->
  as_predicate set_iter re_match o q description = Raise e ->
  as_predicates set_iter re_match o (l1 ++ q :: l2) description = Raise e.
Proof.
  intros H1 Hq. induction H1 as [|q1 p1 l1 ps1 Hq1 _ IH]; simpl.
  - by rewrite Hq.
  - by rewrite Hq1, IH.
Qed.

End Against.

(** X27. [against] turns all its queries into predicates before it
    evaluates any: a query that is refused makes the call raise, even
    when a query before it would match. When all queries are accepted
    and their predicates evaluate, the result is true exactly when one
    of the predicates matches; with one query it is the evaluation of
    that predicate. *)
Theorem against_converts_then_evaluates :
  ∀ (set_iter : gset PredId -> list PredId)
    (re_match : string -> option (string * option string * option string))
    (o : Objects) (config : option Config) (queries : list Descriptor),
    queries ≠ [] ->
    (∀ ps,
        Forall2 (fun q p => as_predicate set_iter re_match o q None = Return p)
                queries ps ->
        Forall (fun p => ∃ b, call p config = Return b) ps ->
        ∃ b, against set_iter re_match o config queries = Return b
             ∧ (b = true ↔ Exists (fun p => call p config = Return true) ps))
    ∧ (∀ l1 q l2 ps1 e,
         queries = l1 ++ q :: l2 ->
         Forall2 (fun q p => as_predicate set_iter re_match o q None = Return p)
                 l1 ps1 ->
         as_predicate set_iter re_match o q None = Raise e ->
         against set_iter re_match o config queries = Raise e)
    ∧ (∀ q p,
         queries = [q] -> as_predicate set_iter re_match o q None = Return p ->
         against set_iter re_match o config queries = call p config).
Proof.
  intros set_iter re_match o config queries Hne.
  assert (against set_iter re_match o config queries
          = (preds ← as_predicates set_iter re_match o queries None;
             call (OrPredicate preds None) config)) as Hagainst.
  { by destruct queries. }
  rewrite Hagainst. split; [|split].
  - intros ps Hps Hev.
    rewrite (as_predicates_each set_iter re_match o queries ps None Hps).
    apply (call_Or_evaluates ps None config Hev).
  - intros l1 q l2 ps1 e -> Hl1 Hq.
    by rewrite (as_predicates_first_error set_iter re_match o l1 l2 q ps1 None e).
  - intros q p -> Hq. simpl. rewrite Hq. simpl.
    by destruct (call p config) as [[]|].
Qed.

Lemma against_converts_then_evaluates_witness :
  against elements sample_re_match sample_table
    (sample_config "pg" "psycopg2" [9; 1; 0]%Z)
    [DStr "pg"; DOther "3"]
  = Raise (AssertionError ("unknown predicate type: " +:+ "3")).
Proof.
  apply (proj1 (proj2 (against_converts_then_evaluates elements sample_re_match
                         sample_table (sample_config "pg" "psycopg2" [9; 1; 0]%Z)
                         [DStr "pg"; DOther "3"] ltac:(discriminate)))
               [DStr "pg"] (DOther "3") [] [SpecPredicate "pg" None VNone None]);
    [reflexivity | by repeat constructor | reflexivity].
Defined.

(** ** Rules of one predicate under the wrapper *)

Section OnePredicate.

Variable str_mod : string -> DescriptionArgs -> PyResult string.
Variable deref : PredId -> Predicate.
Variable set_iter : gset PredId -> list PredId.
Variable test_name : string.
Variable R : Type.
Variable cfg : option Config.
Variable fn : TestFn R.
Variable w : World.
Hypothesis Hiter : iterates set_iter.

Lemma _do_passes_through (self : compound) :
  (∀ i, i ∈ skips self ∪ fails self -> call (deref i) cfg = Return false) ->
  _do str_mod deref set_iter test_name self cfg fn w
  = match invoke fn w with
    | (Return v, w') => (Return (Some v), w')
    | (Raise ex, w') => (Raise ex, w')
    end.
Proof.
  intros Hq. unfold _do.
  rewrite skip_loop_quiet.
  2:{ apply quiet_set; [done|]. intros i Hi. apply Hq, elem_of_union. by left. }
  assert (quiet deref cfg (set_iter (fails self))) as Hqf.
  { apply quiet_set; [done|]. intros i Hi. apply Hq, elem_of_union. by right. }
  destruct (invoke fn w) as [[v|ex] w'].
  - by rewrite _expect_success_quiet.
  - destruct (exc_is_Exception ex); [|done].
    unfold _expect_failure. rewrite expect_failure_loop_quiet by done.
    by rewrite raise__same.
Qed.

Lemma _do_one_skip (self : compound) (i : PredId) (s : string) :
  skips self = {[ i ]} -> call (deref i) cfg = Return true ->
  _as_string str_mod (deref i) cfg false = Return s ->
  _do str_mod deref set_iter test_name self cfg fn w
  = (Raise (SkipTest ("'" +:+ test_name +:+ "' : " +:+ s)), w).
Proof.
  intros Hs Hi Hdesc. unfold _do. rewrite Hs, iterates_singleton by done.
  change [i] with ([] ++ i :: [] : list PredId).
  by rewrite (skip_loop_first str_mod deref test_name cfg [] [] i s);
    [|constructor|..].
Qed.

Lemma _do_one_fail (self : compound) (i : PredId) (s : string) (w' : World) :
  skips self = ∅ -> fails self = {[ i ]} ->
  call (deref i) cfg = Return true ->
  _as_string str_mod (deref i) cfg false = Return s ->
  (∀ v, invoke fn w = (Return v, w') ->
        _do str_mod deref set_iter test_name self cfg fn w
        = (Raise (AssertionError ("Unexpected success for '" +:+ fn_name fn
                                  +:+ "' (" +:+ s +:+ ")")), w'))
  ∧ (∀ ex, invoke fn w = (Raise ex, w') -> exc_is_Exception ex = true ->
           _do str_mod deref set_iter test_name self cfg fn w
           = (Return None,
              {| stdout := stdout w' ++ [fn_name fn +:+ " failed as expected ("
                                         +:+ s +:+ "): " +:+ exc_str ex +:+ " "];
                 invocations := invocations w' |})).
Proof.
  intros Hs Hf Hi Hdesc. split.
  - intros v Hinv. unfold _do. rewrite Hs, iterates_empty by done.
    simpl skip_loop. cbv iota. rewrite Hinv.
    unfold _expect_success. rewrite Hf.
    assert (set_bool ({[ i ]} : gset PredId) = true) as ->.
    { apply set_bool_true. apply non_empty_singleton_L. }
    simpl negb. cbv iota. rewrite iterates_singleton by done.
    change [i] with ([] ++ i :: [] : list PredId) at 1.
    rewrite (expect_success_loop_first str_mod deref cfg [] [] [i] i [s]
               (fn_name fn)); [done | constructor | done |].
    unfold all_descriptions. by rewrite Hdesc.
  - intros ex Hinv Hexc. unfold _do. rewrite Hs, iterates_empty by done.
    simpl skip_loop. cbv iota. rewrite Hinv, Hexc.
    unfold _expect_failure. rewrite Hf, iterates_singleton by done.
    change [i] with ([] ++ i :: [] : list PredId).
    by rewrite (expect_failure_loop_first str_mod deref cfg [] [] i s);
      [|constructor|..].
Qed.

End OnePredicate.

(** X28. A rule made by [exclude] with an ordering operator and a
    version tuple, and no reason, skips the test on its backend exactly
    for the versions the comparison holds for: there the body is not
    entered and the skip reason reads backend, operator and version, as
    in pg < (9, 0); for every other version of that backend the body
    runs as if there were no rule. *)
Theorem exclude_skips_the_versions :
  ∀ (str_mod : string -> DescriptionArgs -> PyResult string)
    (set_iter : gset PredId -> list PredId)
    (re_match : string -> option (string * option string * option string))
    (test_name : string) (o : Objects) (engine : Engine) (db_ : string)
    (ord : Ordering) (xs ys : list Z) (R : Type) (fn : TestFn R) (w : World),
    iterates set_iter ->
    str_contains "+" db_ = false -> name engine = db_ ->
    server_version_info engine = Some (int_tuple_val xs) ->
    ∃ rule o',
      exclude set_iter re_match db_ (Some (OpKey (ordering_key ord)))
        (int_tuple_val ys) None o = Return (rule, o')
      ∧ (lex_holds ord xs ys ->
         _do str_mod (obj o') set_iter test_name rule (Some {| db := engine |}) fn w
         = (Raise (SkipTest ("'" +:+ test_name +:+ "' : " +:+ db_ +:+ " "
                             +:+ ordering_key ord +:+ " "
                             +:+ py_str (int_tuple_val ys))), w))
      ∧ (¬ lex_holds ord xs ys ->
         _do str_mod (obj o') set_iter test_name rule (Some {| db := engine |}) fn w
         = match invoke fn w with
           | (Return v, w') => (Return (Some v), w')
           | (Raise ex, w') => (Raise ex, w')
           end).
Proof.
  intros str_mod set_iter re_match test_name o engine db_ ord xs ys R fn w
    Hiter Hp Hname Hv.
  eexists _, _. split; [reflexivity|].
  destruct (py_order_lex ord xs ys) as (b & Hb & Hiff).
  assert (call (SpecPredicate db_ (Some (OpKey (ordering_key ord)))
                  (int_tuple_val ys) None) (Some {| db := engine |}) = Return b)
    as Hcall.
  { rewrite (spec_call_key engine db_ _ (py_order ord)); auto using _ops_ordering.
    by rewrite (_server_version_tuple _ _ Hv). }
  split.
  - intros Hholds. apply Hiff in Hholds as ->.
    apply (_do_one_skip str_mod _ set_iter test_name R _ fn w Hiter _ (next_id o)).
    + done.
    + cbn [obj]. by rewrite fn_lookup_insert, set_description_None.
    + cbn [obj]. by rewrite fn_lookup_insert, set_description_None.
  - intros Hnot. assert (b = false) as ->.
    { destruct b; [|done]. exfalso. by apply Hnot, Hiff. }
    apply (_do_passes_through str_mod _ set_iter test_name R _ fn w Hiter).
    intros i Hi. cbn [skips fails] in Hi.
    rewrite (right_id_L ∅ (∪)) in Hi. apply elem_of_singleton in Hi as ->.
    cbn [obj]. by rewrite fn_lookup_insert, set_description_None.
Qed.

Lemma exclude_skips_the_versions_witness :
  ∃ rule o',
    exclude elements sample_re_match "pg" (Some (OpKey (ordering_key Lt)))
      (int_tuple_val [9; 2]%Z) None sample_table = Return (rule, o')
    ∧ (lex_holds Lt [9; 1; 0]%Z [9; 2]%Z ->
       _do sample_str_mod (obj o') elements "test_x" rule
         (Some {| db := sample_engine "pg" "psycopg2" [9; 1; 0]%Z |})
         sample_passing sample_world
       = (Raise (SkipTest ("'" +:+ "test_x" +:+ "' : " +:+ "pg" +:+ " "
                           +:+ ordering_key Lt +:+ " "
                           +:+ py_str (int_tuple_val [9; 2]%Z))), sample_world))
    ∧ (¬ lex_holds Lt [9; 1; 0]%Z [9; 2]%Z ->
       _do sample_str_mod (obj o') elements "test_x" rule
         (Some {| db := sample_engine "pg" "psycopg2" [9; 1; 0]%Z |})
         sample_passing sample_world
       = match invoke sample_passing sample_world with
         | (Return v, w') => (Return (Some v), w')
         | (Raise ex, w') => (Raise ex, w')
         end).
Proof.
  exact (exclude_skips_the_versions sample_str_mod elements sample_re_match
           "test_x" sample_table (sample_engine "pg" "psycopg2" [9; 1; 0]%Z)
           "pg" Lt [9; 1; 0]%Z [9; 2]%Z Z sample_passing sample_world
           iterates_elements eq_refl eq_refl eq_refl).
Defined.

(** X29. A rule made by [fails_on_everything_except] expects the test
    to fail wherever none of the backends given matches. Where one of
    them matches, the body runs as if there were no rule. Where none
    does, a body that returns is an unexpected success, reported with
    the negated description of the disjunction, and a body that raises
    an exception is an expected failure: the exception is dropped and
    the line is printed. *)
Theorem fails_on_everything_except_the_listed :
  ∀ (str_mod : string -> DescriptionArgs -> PyResult string)
    (set_iter : gset PredId -> list PredId)
    (re_match : string -> option (string * option string * option string))
    (test_name : string) (o : Objects) (dbs : list Descriptor)
    (ps : list Predicate) (cfg : option Config) (R : Type) (fn : TestFn R)
    (w w' : World),
    iterates set_iter ->
    Forall2 (fun q p => as_predicate set_iter re_match o q None = Return p) dbs ps ->
    Forall (fun p => ∃ b, call p cfg = Return b) ps ->
    ∃ rule o',
      fails_on_everything_except set_iter re_match dbs o = Return (rule, o')
      ∧ (Exists (fun p => call p cfg = Return true) ps ->
         _do str_mod (obj o') set_iter test_name rule cfg fn w
         = match invoke fn w with
           | (Return v, w') => (Return (Some v), w')
           | (Raise ex, w') => (Raise ex, w')
           end)
      ∧ (Forall (fun p => call p cfg = Return false) ps ->
         ∀ s,
           _as_string str_mod (NotPredicate (OrPredicate ps None) None) cfg false
           = Return s ->
           (∀ v, invoke fn w = (Return v, w') ->
                 _do str_mod (obj o') set_iter test_name rule cfg fn w
                 = (Raise (AssertionError ("Unexpected success for '"
                                           +:+ fn_name fn +:+ "' (" +:+ s +:+ ")")),
                    w'))
           ∧ (∀ ex, invoke fn w = (Raise ex, w') -> exc_is_Exception ex = true ->
                    _do str_mod (obj o') set_iter test_name rule cfg fn w
                    = (Return None,
                       {| stdout := stdout w' ++ [fn_name fn
                                                  +:+ " failed as expected ("
                                                  +:+ s +:+ "): " +:+ exc_str ex
                                                  +:+ " "];
                          invocations := invocations w' |}))).
Proof.
  intros str_mod set_iter re_match test_name o dbs ps cfg R fn w w'
    Hiter Hps Hev.
  eexists _, _. split.
  { unfold fails_on_everything_except.
    rewrite (as_predicates_each set_iter re_match o dbs ps None Hps).
    reflexivity. }
  destruct (call_Or_evaluates ps None cfg Hev) as (b & Hb & Hiff).
  assert (call (NotPredicate (OrPredicate ps None) None) cfg = Return (negb b))
    as Hnot.
  { by rewrite call_Not, Hb. }
  split.
  - intros Hex. apply Hiff in Hex as ->.
    apply (_do_passes_through str_mod _ set_iter test_name R cfg fn w Hiter).
    intros i Hi. cbn [skips fails] in Hi.
    rewrite (left_id_L ∅ (∪)) in Hi. apply elem_of_singleton in Hi as ->.
    cbn [obj]. by rewrite fn_lookup_insert, !set_description_None.
  - intros Hq s Hs.
    assert (b = false) as ->.
    { destruct b; [|done]. apply proj1 in Hiff. specialize (Hiff eq_refl).
      apply list.Exists_exists in Hiff as (p & Hp & Hpt).
      apply (proj1 (list.Forall_forall _ _) Hq) in Hp. congruence. }
    apply (_do_one_fail str_mod _ set_iter test_name R cfg fn w Hiter _
             (next_id o) s w').
    + done.
    + done.
    + cbn [obj]. by rewrite fn_lookup_insert, !set_description_None.
    + cbn [obj]. by rewrite fn_lookup_insert, !set_description_None.
Qed.

Lemma fails_on_everything_except_the_listed_witness :
  ∃ rule o',
    fails_on_everything_except elements sample_re_match
      [DStr "pg"; DStr "sqlite"] sample_table = Return (rule, o')
    ∧ (Exists (fun p => call p (sample_config "mysql" "pymysql" [8; 0]%Z)
                        = Return true)
              [SpecPredicate "pg" None VNone None;
               SpecPredicate "sqlite" None VNone None] ->
       _do sample_str_mod (obj o') elements "test_x" rule
         (sample_config "mysql" "pymysql" [8; 0]%Z) sample_passing sample_world
       = match invoke sample_passing sample_world with
         | (Return v, w') => (Return (Some v), w')
         | (Raise ex, w') => (Raise ex, w')
         end)
    ∧ (Forall (fun p => call p (sample_config "mysql" "pymysql" [8; 0]%Z)
                        = Return false)
              [SpecPredicate "pg" None VNone None;
               SpecPredicate "sqlite" None VNone None] ->
       ∀ s,
         _as_string sample_str_mod
           (NotPredicate (OrPredicate [SpecPredicate "pg" None VNone None;
                                       SpecPredicate "sqlite" None VNone None]
                            None) None)
           (sample_config "mysql" "pymysql" [8; 0]%Z) false = Return s ->
         (∀ v, invoke sample_passing sample_world
               = (Return v, {| stdout := []; invocations := 1 |}) ->
               _do sample_str_mod (obj o') elements "test_x" rule
                 (sample_config "mysql" "pymysql" [8; 0]%Z) sample_passing
                 sample_world
               = (Raise (AssertionError ("Unexpected success for '"
                                         +:+ fn_name sample_passing +:+ "' ("
                                         +:+ s +:+ ")")),
                  {| stdout := []; invocations := 1 |}))
         ∧ (∀ ex, invoke sample_passing sample_world
                  = (Raise ex, {| stdout := []; invocations := 1 |}) ->
                  exc_is_Exception ex = true ->
                  _do sample_str_mod (obj o') elements "test_x" rule
                    (sample_config "mysql" "pymysql" [8; 0]%Z) sample_passing
                    sample_world
                  = (Return None,
                     {| stdout := stdout {| stdout := []; invocations := 1 |}
                                  ++ [fn_name sample_passing
                                      +:+ " failed as expected (" +:+ s +:+ "): "
                                      +:+ exc_str ex +:+ " "];
                        invocations := invocations {| stdout := [];
                                                      invocations := 1 |} |}))).
Proof.
  apply (fails_on_everything_except_the_listed sample_str_mod elements
           sample_re_match "test_x" sample_table [DStr "pg"; DStr "sqlite"]
           [SpecPredicate "pg" None VNone None;
            SpecPredicate "sqlite" None VNone None]
           (sample_config "mysql" "pymysql" [8; 0]%Z) Z sample_passing
           sample_world {| stdout := []; invocations := 1 |} iterates_elements).
  - by repeat constructor.
  - repeat constructor; eexists; reflexivity.
Defined.
